(** * Track signaling and LocalDataTrack: a shallow embedding

    The development embeds the JavaScript of
      - lib/signaling/v2/localtrackpublication.js  (LocalTrackPublicationV2)
      - lib/media/track/localdatatrack.js          (LocalDataTrack)
    over an explicit heap of objects, and models the classes these files
    inherit from or call into (TrackSignaling, RemoteTrackV2, Track, the
    DataTrackSender) where they are needed.

    JavaScript objects live in a heap indexed by locations, so that object
    identity ("returns this"), freshness of object literals and aliasing are
    visible.  Methods are computations in a state monad that also carries a
    trace of observable events (emitted notifications, promise deliveries,
    calls into collaborators) and a completion (normal return or throw). *)

From stdpp Require Import base gmap strings list fin_maps.
From Stdlib Require Import ZArith.
From Stdlib Require QArith.

Local Open Scope string_scope.
Local Open Scope list_scope.

(** ** JavaScript values and objects *)

Module JS.

Definition loc := nat.

Inductive value :=
  | VUndefined
  | VNull
  | VBool (b : bool)
  | VNum (n : Z)
  | VStr (s : string)
  | VRef (l : loc).

#[global] Instance value_eq_dec : EqDecision value.
Proof. solve_decision. Defined.

(** [a === b] on the values above (numbers are integers here, so there is
    no NaN; references compare by identity). *)
Definition strict_eq (a b : value) : bool := bool_decide (a = b).

(** ToBoolean. *)
Definition truthy (v : value) : bool :=
  match v with
  | VUndefined | VNull => false
  | VBool b => b
  | VNum n => negb (Z.eqb n 0)
  | VStr s => negb (String.eqb s EmptyString)
  | VRef _ => true
  end.

(** A data property with its attributes. *)
Record prop := Prop_ {
  p_value : value;
  p_writable : bool;
  p_enumerable : bool;
  p_configurable : bool
}.

#[global] Instance prop_eq_dec : EqDecision prop.
Proof. solve_decision. Defined.

(** A property descriptor as passed to Object.defineProperties: every field
    may be absent. *)
Record descriptor := Desc {
  d_value : option value;
  d_writable : option bool;
  d_enumerable : option bool;
  d_configurable : option bool
}.

(** The descriptor [{ value: v }]. *)
Definition desc_value (v : value) : descriptor :=
  Desc (Some v) None None None.

(** The descriptor [{ enumerable: true, value: v }]. *)
Definition desc_enumerable_value (v : value) : descriptor :=
  Desc (Some v) None (Some true) None.

(** An ordinary object: its own data properties. *)
Abbreviation object := (gmap string prop).

(** A property created by an object literal or by plain assignment. *)
Definition plain (v : value) : prop := Prop_ v true true true.

(** Creating a property from a descriptor: absent fields default to
    [undefined] and [false]. *)
Definition prop_of_descriptor (d : descriptor) : prop :=
  Prop_ (default VUndefined (d_value d))
        (default false (d_writable d))
        (default false (d_enumerable d))
        (default false (d_configurable d)).

(** Changing an existing property through a descriptor: absent fields keep
    their current value. *)
Definition apply_descriptor (d : descriptor) (p : prop) : prop :=
  Prop_ (default (p_value p) (d_value d))
        (default (p_writable p) (d_writable d))
        (default (p_enumerable p) (d_enumerable d))
        (default (p_configurable p) (d_configurable d)).

(** ValidateAndApplyPropertyDescriptor on a data property: whether the
    change asked for by [d] is allowed on the current property [p]. *)
Definition descriptor_allowed (d : descriptor) (p : prop) : bool :=
  if p_configurable p then true
  else
    negb (bool_decide (d_configurable d = Some true))
    && bool_decide (d_enumerable d = None ∨ d_enumerable d = Some (p_enumerable p))
    && (p_writable p
        || (negb (bool_decide (d_writable d = Some true))
            && bool_decide (d_value d = None ∨ d_value d = Some (p_value p)))).

(** Object.defineProperty on the own properties of an (extensible) object;
    [None] is the TypeError. *)
Definition define_property (k : string) (d : descriptor) (o : object) : option object :=
  match o !! k with
  | None => Some (<[k := prop_of_descriptor d]> o)
  | Some p =>
      if descriptor_allowed d p then Some (<[k := apply_descriptor d p]> o)
      else None
  end.

(** [o.k] for an own data property; [undefined] when absent. *)
Definition get (k : string) (o : object) : value :=
  match o !! k with
  | Some p => p_value p
  | None => VUndefined
  end.

(** [o.k = v] in strict mode: a new property is created when absent, a
    writable one is overwritten, a non-writable one is a TypeError ([None]). *)
Definition put (k : string) (v : value) (o : object) : option object :=
  match o !! k with
  | None => Some (<[k := plain v]> o)
  | Some p =>
      if p_writable p
      then Some (<[k := Prop_ v true (p_enumerable p) (p_configurable p)]> o)
      else None
  end.

(** [delete o.k] in strict mode: a non-configurable property is a
    TypeError ([None]). *)
Definition delete_property (k : string) (o : object) : option object :=
  match o !! k with
  | None => Some o
  | Some p => if p_configurable p then Some (delete k o) else None
  end.

(** Object.assign(target, source) on own enumerable properties held as
    plain key/value maps: the source wins. *)
Definition assign (target source : gmap string value) : gmap string value :=
  source ∪ target.

End JS.

Import JS.

(** ** Heap, events and the method monad *)

(** The constructor an entity was made by: RemoteTrackV2 or
    LocalTrackPublicationV2. *)
Inductive Class := RemoteTrack | LocalTrackPublication.

#[global] Instance Class_eq_dec : EqDecision Class.
Proof. solve_decision. Defined.

(** The state of a TrackSignaling instance.  [cls] is the constructor the
    instance was made by (it selects the [update] method); [transceiver] and
    [waiting] are the deferred slot for the MediaStreamTrack or
    DataTrackTransceiver and the observers registered on its promise while
    it was pending. *)
Record TrackSignaling := mkTrackSignaling {
  cls : Class;
  id : string;
  kind : string;
  name : string;
  isEnabled : bool;
  sid : option string;
  transceiver : option value;
  waiting : list nat
}.

#[global] Instance TrackSignaling_eq_dec : EqDecision TrackSignaling.
Proof. solve_decision. Defined.

Definition set_isEnabled (b : bool) (t : TrackSignaling) : TrackSignaling :=
  mkTrackSignaling (cls t) (id t) (kind t) (name t) b (sid t)
                   (transceiver t) (waiting t).

Definition set_sid (s : option string) (t : TrackSignaling) : TrackSignaling :=
  mkTrackSignaling (cls t) (id t) (kind t) (name t) (isEnabled t) s
                   (transceiver t) (waiting t).

Definition set_deferred (x : option value) (w : list nat) (t : TrackSignaling)
  : TrackSignaling :=
  mkTrackSignaling (cls t) (id t) (kind t) (name t) (isEnabled t) (sid t) x w.

(** What a location holds: a signaling entity or an ordinary object. *)
Inductive cell :=
  | Entity (t : TrackSignaling)
  | Object (o : object).

#[global] Instance cell_eq_dec : EqDecision cell.
Proof. solve_decision. Defined.

Abbreviation heap := (gmap loc cell).

(** Observable events: [Emit l e] is [l.emit(e)]; [Deliver l k v] is the
    promise of [l]'s deferred slot handing [v] to observer [k];
    [Call l m args] is a call of method [m] on the collaborator at [l]. *)
Inductive event :=
  | Emit (l : loc) (e : string)
  | Deliver (l : loc) (k : nat) (v : value)
  | Call (l : loc) (m : string) (args : list value).

#[global] Instance event_eq_dec : EqDecision event.
Proof. solve_decision. Defined.

(** How a method ends: it returns, it throws a TypeError of its own, or an
    exception raised by a collaborator it called escapes from it. *)
Inductive completion (A : Type) :=
  | Return (a : A)
  | ThrowTypeError
  | ThrowError.
Arguments Return {A} a.
Arguments ThrowTypeError {A}.
Arguments ThrowError {A}.

(** A method body: from a heap to a completion, the heap it leaves and the
    events it produced, in order. *)
Definition M (A : Type) : Type := heap → completion A * heap * list event.

#[global] Instance M_ret : MRet M := λ A a h, (Return a, h, []).

#[global] Instance M_bind : MBind M := λ A B f m h,
  match m h with
  | (Return a, h', tr) =>
      match f a h' with
      | (r, h'', tr') => (r, h'', tr ++ tr')
      end
  | (ThrowTypeError, h', tr) => (ThrowTypeError, h', tr)
  | (ThrowError, h', tr) => (ThrowError, h', tr)
  end.

Definition throw {A} : M A := λ h, (ThrowTypeError, h, []).
Definition raise {A} : M A := λ h, (ThrowError, h, []).
Definition emit (l : loc) (e : string) : M unit := λ h, (Return tt, h, [Emit l e]).
Definition deliver (l : loc) (v : value) (k : nat) : M unit :=
  λ h, (Return tt, h, [Deliver l k v]).
Definition call (l : loc) (m : string) (args : list value) : M unit :=
  λ h, (Return tt, h, [Call l m args]).
Definition read (l : loc) : M (option cell) := λ h, (Return (h !! l), h, []).
Definition write (l : loc) (c : cell) : M unit := λ h, (Return tt, <[l := c]> h, []).

(** A fresh location holding [c]. *)
Definition alloc (c : cell) : M loc :=
  λ h, let l := fresh (dom h) in (Return l, <[l := c]> h, []).

(** [this] as a signaling entity; a method applied to anything else throws. *)
Definition this_entity (l : loc) : M TrackSignaling :=
  c ← read l;
  match c with
  | Some (Entity t) => mret t
  | _ => throw
  end.

(** [this] as an ordinary object. *)
Definition this_object (l : loc) : M object :=
  c ← read l;
  match c with
  | Some (Object o) => mret o
  | _ => throw
  end.

(** Run [f] on each element in order (Array.prototype.forEach). *)
Fixpoint for_each {A} (f : A → M unit) (xs : list A) : M unit :=
  match xs with
  | [] => mret tt
  | x :: xs' => f x ;; for_each f xs'
  end.

(** Projections of a run. *)
Definition result {A} (r : completion A * heap * list event) : completion A := r.1.1.
Definition final {A} (r : completion A * heap * list event) : heap := r.1.2.
Definition events {A} (r : completion A * heap * list event) : list event := r.2.

(** ** Track signaling *)

(** The Room Signaling Protocol representation of a track
    (LocalTrackPublicationV2#Representation, and the trackState a
    RemoteTrackV2 is built and updated from): enabled, id, kind, name, sid.
    [r_sid] is [None] when the record carries no sid. *)
Record Representation := mkRepresentation {
  r_enabled : bool;
  r_id : string;
  r_kind : string;
  r_name : string;
  r_sid : option string
}.

(** Modelled from the spec: TrackSignaling#enable, of lib/signaling/track.js,
    which is not among the sources.  "enable(enabled = true): sets isEnabled
    to the given boolean (default true).  If the new value differs from the
    current value, updates state and emits one "updated" notification; if
    unchanged, no notification and no state mutation.  Returns the entity
    itself." *)
Definition enable (this : loc) (enabled : option bool) : M loc :=
  t ← this_entity this;
  let enabled := default true enabled in
  if bool_decide (isEnabled t = enabled) then mret this
  else
    write this (Entity (set_isEnabled enabled t)) ;;
    emit this "updated" ;;
    mret this.

(** Modelled from the spec: TrackSignaling#disable, "equivalent to
    enable(false)". *)
Definition disable (this : loc) : M loc := enable this (Some false).

(** Modelled from the spec: setSid, called by LocalTrackPublicationV2#update
    and defined in lib/signaling/localtrackpublication.js, which is not among
    the sources.  The sid is "initially unset (unknown until published),
    mutated exactly once from unset to a concrete value by the update
    protocol"; "calling update with the same sid already held is idempotent
    (no notification, no error)".  So the sid is assigned only while it is
    unset and only a concrete value, and a sid once held stays.  The
    notification comes from the sources: LocalTrackPublicationV2#update is
    documented [@fires TrackSignaling#updated] and does nothing but call
    setSid, so the assignment is what emits "updated". *)
Definition setSid (this : loc) (s : option string) : M loc :=
  t ← this_entity this;
  match sid t, s with
  | None, Some _ =>
      write this (Entity (set_sid s t)) ;;
      emit this "updated" ;;
      mret this
  | _, _ => mret this
  end.

(** The promise of an entity's deferred slot. *)
Inductive promise := TransceiverPromise (l : loc).

(** Modelled from the spec: getMediaStreamTrackOrDataTrackTransceiver (the
    spec's getTransportObject), whose class is not among the sources.
    "returns a future/promise that resolves to the transport object;
    callable any number of times, before or after resolution, always
    yielding the same eventual value". *)
Definition getMediaStreamTrackOrDataTrackTransceiver (this : loc) : M promise :=
  _ ← this_entity this;
  mret (TransceiverPromise this).

(** Modelled from the spec: setMediaStreamTrackOrDataTrackTransceiver (the
    spec's setTransportObject).  "resolves the deferred transport-object
    slot to obj if unresolved; a no-op (non-error) if already resolved";
    "callers registered earlier are resumed in the order they registered,
    exactly once, with the same value".  The tests have it return the
    entity. *)
Definition setMediaStreamTrackOrDataTrackTransceiver (this : loc) (x : value) : M loc :=
  t ← this_entity this;
  match transceiver t with
  | Some _ => mret this
  | None =>
      write this (Entity (set_deferred (Some x) [] t)) ;;
      for_each (deliver this x) (waiting t) ;;
      mret this
  end.

(** Modelled from the spec: [promise.then(k)] on the deferred slot's
    promise.  "any observer asking before resolution must receive the
    eventual value once it arrives, and any observer asking after resolution
    must receive it immediately". *)
Definition then_ (p : promise) (k : nat) : M unit :=
  match p with
  | TransceiverPromise l =>
      t ← this_entity l;
      match transceiver t with
      | Some x => deliver l x k
      | None => write l (Entity (set_deferred None (waiting t ++ [k]) t))
      end
  end.

(** What a promise is resolved to in a heap, if it is. *)
Definition settled (h : heap) (p : promise) : option value :=
  match p with
  | TransceiverPromise l =>
      match h !! l with
      | Some (Entity t) => transceiver t
      | _ => None
      end
  end.

Module RemoteTrackV2.

(** Modelled from the spec: the RemoteTrackV2 constructor
    (lib/signaling/v2/remotetrack.js is not among the sources).
    "Constructed from a trackState record {id, kind, name, sid, enabled}
    [...] enabled determines the initial isEnabled"; the deferred slot is
    "initially empty". *)
Definition new (trackState : Representation) : M loc :=
  alloc (Entity (mkTrackSignaling RemoteTrack
                   (r_id trackState) (r_kind trackState) (r_name trackState)
                   (r_enabled trackState) (r_sid trackState) None [])).

(** Modelled from the spec: RemoteTrackV2#update.  "Applies the enabled-flag
    reconciliation per §4.1's notification discipline (comparing the
    record's enabled field against current isEnabled).  Returns the entity
    itself.  [...] id, kind, name, sid [...] are not re-applied by update
    even if present in the incoming record". *)
Definition update (this : loc) (trackState : Representation) : M loc :=
  enable this (Some (r_enabled trackState)) ;;
  mret this.

End RemoteTrackV2.

Module LocalTrackPublicationV2.

(** LocalTrackPublicationV2.prototype.getState: a new object literal with
    the four properties enabled, id, kind and name. *)
Definition getState (this : loc) : M loc :=
  t ← this_entity this;
  alloc (Object (<["enabled" := plain (VBool (isEnabled t))]>
                 (<["id" := plain (VStr (id t))]>
                  (<["kind" := plain (VStr (kind t))]>
                   (<["name" := plain (VStr (name t))]> ∅))))).

(** LocalTrackPublicationV2.prototype.update. *)
Definition update (this : loc) (track : Representation) : M loc :=
  setSid this (r_sid track) ;;
  mret this.

End LocalTrackPublicationV2.

(** [this.update(track)]: the method of the entity's own class. *)
Definition update (this : loc) (track : Representation) : M loc :=
  t ← this_entity this;
  match cls t with
  | RemoteTrack => RemoteTrackV2.update this track
  | LocalTrackPublication => LocalTrackPublicationV2.update this track
  end.

(** A call of one of the three state-changing methods. *)
Inductive invocation :=
  | Enable (enabled : option bool)
  | Disable
  | Update (track : Representation).

Definition invoke (this : loc) (c : invocation) : M loc :=
  match c with
  | Enable enabled => enable this enabled
  | Disable => disable this
  | Update track => update this track
  end.

(** [isEnabled] of the entity at [l], read from the heap. *)
Definition isEnabled_at (h : heap) (l : loc) : option bool :=
  match h !! l with
  | Some (Entity t) => Some (isEnabled t)
  | _ => None
  end.

(** [sid] of the entity at [l], read from the heap. *)
Definition sid_at (h : heap) (l : loc) : option (option string) :=
  match h !! l with
  | Some (Entity t) => Some (sid t)
  | _ => None
  end.

(** What one call of a sequence did: isEnabled and sid before and after
    it, the events it produced and its completion. *)
Record observation := mkObservation {
  before : option bool;
  after : option bool;
  sid_before : option (option string);
  sid_after : option (option string);
  notified : list event;
  returned : completion loc
}.

(** A sequence of calls on one entity, each observed; the caller goes on
    after a call that throws. *)
Fixpoint run (this : loc) (cs : list invocation) (h : heap) : list observation * heap :=
  match cs with
  | [] => ([], h)
  | c :: cs' =>
      let r := invoke this c h in
      let rest := run this cs' (final r) in
      (mkObservation (isEnabled_at h this) (isEnabled_at (final r) this)
                     (sid_at h this) (sid_at (final r) this)
                     (events r) (result r) :: rest.1, rest.2)
  end.

(** ** LocalDataTrack *)

(** What a call [sender.send(data)] comes to: [send] is not callable on the
    sender; or it is called and raises, or is called and returns, leaving
    the sender's own properties as given. *)
Inductive call_outcome :=
  | NotCallable
  | Raised (after : object)
  | Returned (after : object).

(** What lib/media/track/localdatatrack.js takes from modules that are not
    among the sources: the default DataTrackSender constructor, the logging
    utilities, what [new F(...)] yields for a constructor value [F] ([None]
    when it throws), and what calling [send(data)] on a sender with given
    own properties comes to (the method itself is the sender's or its
    prototype's; the sender holds no reference to the track).  The logging
    utilities are taken in the runs where they return. *)
Class Requires := {
  DefaultDataTrackSender : value;
  DEFAULT_LOG_LEVEL : value;
  buildLogLevels : value → value;
  Log : value → loc → value → object;
  construct : value → list value → option object;
  DataTrackSender_send : value → object → call_outcome
}.

Section LocalDataTrack.
Context `{Requires}.

(** [options.k] on the options object. *)
Definition option_ (k : string) (options : gmap string value) : value :=
  default VUndefined (options !! k).

(** [new F(...args)]: the object the construction hands over, held at a
    location of its own (the constructors of the sources' tests make a new
    sender on every call). *)
Definition new (F : value) (args : list value) : M loc :=
  match construct F args with
  | Some o => alloc (Object o)
  | None => throw
  end.

(** Object.defineProperty(this, k, d). *)
Definition defineProperty (this : loc) (kd : string * descriptor) : M unit :=
  o ← this_object this;
  match define_property kd.1 kd.2 o with
  | Some o' => write this (Object o')
  | None => throw
  end.

(** Object.defineProperties(this, ds): one property after the other. *)
Definition defineProperties (this : loc) (ds : list (string * descriptor)) : M unit :=
  for_each (defineProperty this) ds.

(** Modelled from the spec: the Track constructor of lib/media/track/index.js,
    which is not among the sources, as called by
    [Track.call(this, id, kind, options)].  "Sets id from the sender's id;
    kind fixed to "data"; name defaults to id unless explicitly supplied in
    options"; id, kind and name "are fixed at construction".  The spec does
    not give their enumerability; they are defined like the public
    properties of LocalDataTrack. *)
Definition Track (this : loc) (id kind : value) (options : gmap string value) : M unit :=
  defineProperties this
    [("id", desc_enumerable_value id);
     ("kind", desc_enumerable_value kind);
     ("name", desc_enumerable_value (default id (options !! "name")))].

(** The defaults that the constructor merges the options into. *)
Definition defaults : gmap string value :=
  <["DataTrackSender" := DefaultDataTrackSender]>
  (<["logLevel" := DEFAULT_LOG_LEVEL]>
   (<["maxPacketLifeTime" := VNull]>
    (<["maxRetransmits" := VNull]>
     (<["ordered" := VBool true]> ∅)))).

(** The LocalDataTrack constructor, on the newly allocated [this].
    [options] is [None] when the argument is left out.  (Called without
    [new], the function calls itself with [new].) *)
Definition LocalDataTrack (options : option (gmap string value)) : M loc :=
  this ← alloc (Object ∅);
  let options := assign defaults (default ∅ options) in
  let logLevels := buildLogLevels (option_ "logLevel" options) in
  log ← (if truthy (option_ "log" options) then mret (option_ "log" options)
         else l ← alloc (Object (Log (VStr "default") this logLevels));
              mret (VRef l));
  let options := <["log" := log]> options in
  let DataTrackSender := option_ "DataTrackSender" options in
  dataTrackSender ← new DataTrackSender
                       [option_ "maxPacketLifeTime" options;
                        option_ "maxRetransmits" options;
                        option_ "ordered" options];
  sender ← this_object dataTrackSender;
  Track this (get "id" sender) (VStr "data") options ;;
  defineProperties this
    [("_dataTrackSender", desc_value (VRef dataTrackSender));
     ("maxPacketLifeTime",
        desc_enumerable_value (option_ "maxPacketLifeTime" options));
     ("maxRetransmits",
        desc_enumerable_value (option_ "maxRetransmits" options));
     ("ordered", desc_enumerable_value (option_ "ordered" options));
     ("reliable",
        desc_enumerable_value
          (VBool (strict_eq (option_ "maxPacketLifeTime" options) VNull
                  && strict_eq (option_ "maxRetransmits" options) VNull)))] ;;
  mret this.

(** LocalDataTrack.prototype.send: [this._dataTrackSender.send(data)].
    Reading [send] off something that is no object, or calling what is not
    callable, is a TypeError; an exception of the sender's send escapes. *)
Definition send (this : loc) (data : value) : M value :=
  o ← this_object this;
  match get "_dataTrackSender" o with
  | VRef s =>
      sender ← this_object s;
      match DataTrackSender_send data sender with
      | NotCallable => throw
      | Raised after =>
          call s "send" [data] ;;
          write s (Object after) ;;
          raise
      | Returned after =>
          call s "send" [data] ;;
          write s (Object after) ;;
          mret VUndefined
      end
  | _ => throw
  end.

(** What can be done to a LocalDataTrack once constructed: its own method,
    and the caller's attempts to write, delete or redefine a property. *)
Inductive operation :=
  | Send (data : value)
  | Assign (k : string) (v : value)
  | Delete (k : string)
  | DefineProperty (k : string) (d : descriptor).

Definition lift (f : object → option object) (this : loc) : M value :=
  o ← this_object this;
  match f o with
  | Some o' => write this (Object o') ;; mret VUndefined
  | None => throw
  end.

Definition perform (this : loc) (op : operation) : M value :=
  match op with
  | Send data => send this data
  | Assign k v => lift (put k v) this
  | Delete k => lift (delete_property k) this
  | DefineProperty k d => lift (define_property k d) this
  end.

(** A sequence of operations; the caller goes on after one that throws. *)
Fixpoint perform_all (this : loc) (ops : list operation) (h : heap) : heap :=
  match ops with
  | [] => h
  | op :: ops' => perform_all this ops' (final (perform this op h))
  end.

(** The own property [k] of the object at [l]. *)
Definition property_at (h : heap) (l : loc) (k : string) : option prop :=
  match h !! l with
  | Some (Object o) => o !! k
  | _ => None
  end.

(** [l.k] read from the heap. *)
Definition get_at (h : heap) (l : loc) (k : string) : value :=
  match h !! l with
  | Some (Object o) => get k o
  | _ => VUndefined
  end.

End LocalDataTrack.

(** The own properties of a LocalDataTrack as the constructor leaves them:
    id, kind and name from Track, then the five defined by the constructor
    itself, all created from descriptors without [writable] and
    [configurable]. *)
Definition constructed (sender : loc) (id name maxPacketLifeTime maxRetransmits
                        ordered : value) : object :=
  foldl (λ o kd, <[kd.1 := prop_of_descriptor kd.2]> o) ∅
    [("id", desc_enumerable_value id);
     ("kind", desc_enumerable_value (VStr "data"));
     ("name", desc_enumerable_value name);
     ("_dataTrackSender", desc_value (VRef sender));
     ("maxPacketLifeTime", desc_enumerable_value maxPacketLifeTime);
     ("maxRetransmits", desc_enumerable_value maxRetransmits);
     ("ordered", desc_enumerable_value ordered);
     ("reliable",
        desc_enumerable_value
          (VBool (strict_eq maxPacketLifeTime VNull
                  && strict_eq maxRetransmits VNull)))].

(** The five properties the LocalDataTrack constructor defines itself. *)
Definition own_properties : list string :=
  ["_dataTrackSender"; "maxPacketLifeTime"; "maxRetransmits"; "ordered"; "reliable"].

(** The property [k] of the object at [l] is [p], and [p] can neither be
    written nor reconfigured. *)
Definition frozen (h : heap) (l : loc) (k : string) (p : prop) : Prop :=
  property_at h l k = Some p ∧ p_writable p = false ∧ p_configurable p = false.

(** The track at [this] holds the sender at [s] in its non-writable
    [_dataTrackSender], and [s] is another object. *)
Definition owns_sender (h : heap) (this s : loc) : Prop :=
  s ≠ this
  ∧ (∃ sender, h !! s = Some (Object sender))
  ∧ frozen h this "_dataTrackSender" (Prop_ (VRef s) false false false).

(** A test double as in the unit tests: every constructor yields a sender
    whose id is "abc", and whose send returns and leaves the sender as it
    is. *)
Definition stub : Requires := {|
  DefaultDataTrackSender := VRef 1000;
  DEFAULT_LOG_LEVEL := VStr "warn";
  buildLogLevels := λ v, v;
  Log := λ _ _ _, ∅;
  construct := λ _ _, Some (<["id" := plain (VStr "abc")]> ∅);
  DataTrackSender_send := λ _ o, Returned o
|}.

(** Entities and records used as concrete instances below. *)
Definition remote_t1 : TrackSignaling :=
  mkTrackSignaling RemoteTrack "t1" "video" "n1" true (Some "s1") None [].

Definition publication_t2 : TrackSignaling :=
  mkTrackSignaling LocalTrackPublication "t2" "audio" "mic" true None None [].

Definition heap_remote : heap := {[ 0 := Entity remote_t1 ]}.

Definition heap_publication : heap := {[ 5 := Entity publication_t2 ]}.

Definition state_disabled : Representation :=
  mkRepresentation false "other" "audio" "renamed" (Some "s9").

Definition state_with_sid : Representation :=
  mkRepresentation false "t2" "audio" "mic" (Some "MT1").




(** Options and heaps used as concrete instances below. *)
Definition options_foo : option (gmap string value) :=
  Some (<["name" := VStr "foo"]> (<["maxRetransmits" := VNum 3]> ∅)).

Definition heap_default : heap := final (@LocalDataTrack stub None ∅).

Definition heap_foo : heap := final (@LocalDataTrack stub options_foo ∅).

(** ** Further definitions *)

(** [datas.forEach(data => track.send(data))]: the payloads sent one after
    the other. *)
Definition send_each `{Requires} (this : loc) (datas : list value) : M unit :=
  for_each (λ data, send this data ≫= λ _, mret tt) datas.

(** The helpers of the RemoteTrackV2 unit tests.  [random] is the number
    Math.random() returned, a rational in [0, 1). *)
Module TestHelpers.

(** [Number(b)] for a boolean. *)
Definition Number (b : bool) : nat := if b then 1 else 0.

(** [xs[i]]: [undefined] out of range. *)
Definition index (xs : list string) (i : nat) : value :=
  match xs !! i with
  | Some x => VStr x
  | None => VUndefined
  end.

(** [random > 0.5] and [random < 0.5]. *)
Definition gt_half (random : QArith_base.Q) : bool :=
  if QArith_base.Qlt_le_dec (QArith_base.Qmake 1 2) random then true else false.

Definition lt_half (random : QArith_base.Q) : bool :=
  if QArith_base.Qlt_le_dec random (QArith_base.Qmake 1 2) then true else false.

(** makeEnabled: [Math.random() < 0.5]. *)
Definition makeEnabled (random : QArith_base.Q) : bool := lt_half random.

(** makeKind: [['audio', 'video'][Number(Math.random() > 0.5)]]. *)
Definition makeKind (random : QArith_base.Q) : value :=
  index ["audio"; "video"] (Number (gt_half random)).

End TestHelpers.

(** A sender constructor that always throws, for the error path. *)
Definition stub_throwing : Requires := {|
  DefaultDataTrackSender := VRef 1000;
  DEFAULT_LOG_LEVEL := VStr "warn";
  buildLogLevels := λ v, v;
  Log := λ _ _ _, ∅;
  construct := λ _ _, None;
  DataTrackSender_send := λ _ o, Returned o
|}.

(** A sender without a send method, and one whose send raises after the
    first payload "a" has been counted in its property n. *)
Definition stub_no_send : Requires := {|
  DefaultDataTrackSender := VRef 1000;
  DEFAULT_LOG_LEVEL := VStr "warn";
  buildLogLevels := λ v, v;
  Log := λ _ _ _, ∅;
  construct := λ _ _, Some (<["id" := plain (VStr "abc")]> ∅);
  DataTrackSender_send := λ _ _, NotCallable
|}.

Definition stub_raising : Requires := {|
  DefaultDataTrackSender := VRef 1000;
  DEFAULT_LOG_LEVEL := VStr "warn";
  buildLogLevels := λ v, v;
  Log := λ _ _ _, ∅;
  construct := λ _ _, Some (<["id" := plain (VStr "abc")]> ∅);
  DataTrackSender_send := λ data o,
    if bool_decide (data = VStr "a") then Returned (<["n" := plain (VNum 1)]> o)
    else Raised o
|}.

Definition options_both : option (gmap string value) :=
  Some (<["maxPacketLifeTime" := VNum 500]> (<["maxRetransmits" := VNum 3]> ∅)).

(** * Properties *)

(** ** Running the monad *)

Lemma bind_silent {A B} (m : M A) (f : A → M B) h a h' :
  m h = (Return a, h', []) → (m ≫= f) h = f a h'.
Proof.
  intros Hm. unfold mbind, M_bind. rewrite Hm.
  by destruct (f a h') as [[r h''] tr'].
Qed.

Lemma bind_throw {A B} (m : M A) (f : A → M B) h h' tr :
  m h = (ThrowTypeError, h', tr) →
  (m ≫= f) h = (ThrowTypeError, h', tr).
Proof. intros Hm. unfold mbind, M_bind. by rewrite Hm. Qed.

Lemma this_entity_run h l t :
  h !! l = Some (Entity t) → this_entity l h = (Return t, h, []).
Proof.
  intros Hl. unfold this_entity, read, mbind, M_bind, mret, M_ret.
  by rewrite Hl.
Qed.

Lemma this_object_run h l o :
  h !! l = Some (Object o) → this_object l h = (Return o, h, []).
Proof.
  intros Hl. unfold this_object, read, mbind, M_bind, mret, M_ret.
  by rewrite Hl.
Qed.

(** Stepping over the leading [this_entity] or [this_object] of a method
    body, given what the heap holds at [this]. *)
Lemma bind_this_entity {B} (f : TrackSignaling → M B) h l t :
  h !! l = Some (Entity t) → (this_entity l ≫= f) h = f t h.
Proof. intros Hl. by apply bind_silent, this_entity_run. Qed.

Lemma bind_this_object {B} (f : object → M B) h l o :
  h !! l = Some (Object o) → (this_object l ≫= f) h = f o h.
Proof. intros Hl. by apply bind_silent, this_object_run. Qed.

Ltac as_entity Hl := rewrite (bind_this_entity _ _ _ _ Hl).
Ltac as_object Hl := rewrite (bind_this_object _ _ _ _ Hl).

(** ** TrackSignaling: enable, disable, setSid, update *)

Lemma enable_run h this t enabled :
  h !! this = Some (Entity t) →
  enable this enabled h =
    if bool_decide (isEnabled t = default true enabled) then (Return this, h, [])
    else (Return this,
          <[this := Entity (set_isEnabled (default true enabled) t)]> h,
          [Emit this "updated"]).
Proof.
  intros Hl. unfold enable.
  as_entity Hl.
  by case_bool_decide.
Qed.

Lemma setSid_run h this t s :
  h !! this = Some (Entity t) →
  setSid this s h =
    match sid t, s with
    | None, Some _ =>
        (Return this, <[this := Entity (set_sid s t)]> h, [Emit this "updated"])
    | _, _ => (Return this, h, [])
    end.
Proof.
  intros Hl. unfold setSid.
  as_entity Hl.
  by destruct (sid t), s.
Qed.

Lemma RemoteTrackV2_update_run h this t trackState :
  h !! this = Some (Entity t) →
  RemoteTrackV2.update this trackState h =
    if bool_decide (isEnabled t = r_enabled trackState) then (Return this, h, [])
    else (Return this,
          <[this := Entity (set_isEnabled (r_enabled trackState) t)]> h,
          [Emit this "updated"]).
Proof.
  intros Hl. unfold RemoteTrackV2.update.
  unfold mbind, M_bind. rewrite (enable_run _ _ _ _ Hl). simpl.
  by case_bool_decide.
Qed.

Lemma LocalTrackPublicationV2_update_run h this t track :
  h !! this = Some (Entity t) →
  LocalTrackPublicationV2.update this track h =
    match sid t, r_sid track with
    | None, Some _ =>
        (Return this, <[this := Entity (set_sid (r_sid track) t)]> h,
         [Emit this "updated"])
    | _, _ => (Return this, h, [])
    end.
Proof.
  intros Hl. unfold LocalTrackPublicationV2.update.
  unfold mbind, M_bind. rewrite (setSid_run _ _ _ _ Hl).
  by destruct (sid t), (r_sid track).
Qed.

Lemma update_run h this t track :
  h !! this = Some (Entity t) →
  update this track h =
    match cls t with
    | RemoteTrack => RemoteTrackV2.update this track h
    | LocalTrackPublication => LocalTrackPublicationV2.update this track h
    end.
Proof.
  intros Hl. unfold update.
  as_entity Hl. simpl.
  destruct (cls t).
  - by destruct (RemoteTrackV2.update this track h) as [[??]?].
  - by destruct (LocalTrackPublicationV2.update this track h) as [[??]?].
Qed.

(** What a call does to an entity: it returns [this], leaves an entity of
    the same class, id, kind and name at [this], touches no other location,
    and notifies exactly when [isEnabled] or [sid] changes.  Only update on
    a local publication changes [sid], and it leaves [isEnabled]. *)
Lemma invoke_run h this t c :
  h !! this = Some (Entity t) →
  ∃ t', invoke this c h =
          (Return this, <[this := Entity t']> h,
           if bool_decide (isEnabled t = isEnabled t' ∧ sid t = sid t') then []
           else [Emit this "updated"])
        ∧ cls t' = cls t ∧ id t' = id t ∧ kind t' = kind t ∧ name t' = name t
        ∧ ((∀ track, c ≠ Update track) ∨ cls t = RemoteTrack → sid t' = sid t)
        ∧ ((∃ track, c = Update track) ∧ cls t = LocalTrackPublication →
           isEnabled t' = isEnabled t).
Proof.
  intros Hl.
  assert (Hid : <[this := Entity t]> h = h) by by apply insert_id.
  assert (Hsame : ∀ b : bool, b ≠ isEnabled t →
            bool_decide (isEnabled t = b ∧ sid t = sid t) = false).
  { intros b Hb. apply bool_decide_eq_false. by intros [<- _]. }
  destruct c as [enabled| |track]; simpl.
  - rewrite (enable_run _ _ _ _ Hl). case_bool_decide as Hb.
    + exists t. rewrite Hid, bool_decide_true; [|done]. by repeat split.
    + exists (set_isEnabled (default true enabled) t).
      simpl. rewrite Hsame by done. repeat split; try done. by intros [[? [=]] _].
  - unfold disable. rewrite (enable_run _ _ _ _ Hl). case_bool_decide as Hb.
    + exists t. rewrite Hid, bool_decide_true; [|done]. by repeat split.
    + exists (set_isEnabled false t). simpl in *.
      rewrite Hsame by done. repeat split; try done. by intros [[? [=]] _].
  - rewrite (update_run _ _ _ _ Hl). destruct (cls t) eqn:Hc.
    + rewrite (RemoteTrackV2_update_run _ _ _ _ Hl). case_bool_decide as Hb.
      * exists t. rewrite Hid, bool_decide_true; [|done]. by repeat split.
      * exists (set_isEnabled (r_enabled track) t).
        simpl. rewrite Hsame by done. repeat split; try done. by intros [_ [=]].
    + rewrite (LocalTrackPublicationV2_update_run _ _ _ _ Hl).
      destruct (sid t) as [held|] eqn:Hs, (r_sid track) as [given|] eqn:Hr.
      * exists t. rewrite Hid, bool_decide_true; [|done]. by repeat split.
      * exists t. rewrite Hid, bool_decide_true; [|done]. by repeat split.
      * exists (set_sid (Some given) t). simpl.
        rewrite bool_decide_false by (by intros [_ [=]]).
        repeat split; try done. intros [Hno|[=]]. by destruct (Hno track).
      * exists t. rewrite Hid, bool_decide_true; [|done]. by repeat split.
Qed.







(** C3.  For every RemoteTrackV2 and every incoming trackState, update
    leaves id, kind, name and sid as they were, whatever the record holds
    for them; the entity after the call is the entity before it with
    isEnabled set to the record's enabled, and nothing else in the heap
    changes. *)
Theorem C3_remote_update_keeps_identity (h : heap) (this : loc)
    (t : TrackSignaling) (trackState : Representation) :
  h !! this = Some (Entity t) →
  ∃ t', final (RemoteTrackV2.update this trackState h) !! this = Some (Entity t')
        ∧ id t' = id t ∧ kind t' = kind t ∧ name t' = name t ∧ sid t' = sid t
        ∧ t' = set_isEnabled (r_enabled trackState) t
        ∧ ∀ l, l ≠ this →
               final (RemoteTrackV2.update this trackState h) !! l = h !! l.
Proof.
  intros Hl. rewrite (RemoteTrackV2_update_run _ _ _ _ Hl).
  exists (set_isEnabled (r_enabled trackState) t).
  case_bool_decide as Hb; unfold final; simpl.
  - rewrite Hl. repeat split; try done.
    destruct t; simpl in *. by subst.
  - rewrite lookup_insert_eq. repeat split; try done.
    intros l Hne. by rewrite lookup_insert_ne.
Qed.

Lemma C3_witness :
  heap_remote !! 0 = Some (Entity remote_t1)
  ∧ ∃ t', final (RemoteTrackV2.update 0 state_disabled heap_remote) !! 0
          = Some (Entity t')
        ∧ id t' = "t1" ∧ kind t' = "video" ∧ name t' = "n1" ∧ sid t' = Some "s1".
Proof.
  assert (Hl : heap_remote !! 0 = Some (Entity remote_t1)) by reflexivity.
  split; [exact Hl|].
  destruct (C3_remote_update_keeps_identity _ 0 remote_t1 state_disabled Hl)
    as (t' & H0 & H1 & H2 & H3 & H4 & _).
  exists t'. exact (conj H0 (conj H1 (conj H2 (conj H3 H4)))).
Defined.

(** ** The deferred transceiver slot *)

Lemma for_each_deliver_run (l : loc) (x : value) (ks : list nat) (h : heap) :
  for_each (deliver l x) ks h = (Return tt, h, (λ k, Deliver l k x) <$> ks).
Proof.
  induction ks as [|k ks IH]; [done|].
  simpl. unfold mbind, M_bind. simpl. by rewrite IH.
Qed.

Lemma get_transceiver_run h this t :
  h !! this = Some (Entity t) →
  getMediaStreamTrackOrDataTrackTransceiver this h
  = (Return (TransceiverPromise this), h, []).
Proof.
  intros Hl. unfold getMediaStreamTrackOrDataTrackTransceiver.
  by as_entity Hl.
Qed.

Lemma set_transceiver_run h this t x :
  h !! this = Some (Entity t) →
  setMediaStreamTrackOrDataTrackTransceiver this x h =
    match transceiver t with
    | Some _ => (Return this, h, [])
    | None => (Return this, <[this := Entity (set_deferred (Some x) [] t)]> h,
               (λ k, Deliver this k x) <$> waiting t)
    end.
Proof.
  intros Hl. unfold setMediaStreamTrackOrDataTrackTransceiver.
  as_entity Hl.
  destruct (transceiver t); [done|].
  unfold mbind, M_bind, write. rewrite for_each_deliver_run. simpl.
  by rewrite app_nil_r.
Qed.

Lemma then_run h this t k :
  h !! this = Some (Entity t) →
  then_ (TransceiverPromise this) k h =
    match transceiver t with
    | Some x => (Return tt, h, [Deliver this k x])
    | None => (Return tt,
               <[this := Entity (set_deferred None (waiting t ++ [k]) t)]> h, [])
    end.
Proof.
  intros Hl. unfold then_.
  as_entity Hl.
  by destruct (transceiver t).
Qed.

(** C4.  For every entity whose deferred slot is still empty and every
    transceiver x: the getter hands out the same promise before and after
    the setter is called; an observer that asked before the setter is called
    with x receives x when it is called, and one that asks afterwards
    receives x at once; the setter returns the entity; and a second call of
    the setter, with any y, returns the entity, changes nothing, delivers
    nothing and leaves the promise resolved to x. *)
Theorem C4_transceiver_resolves_once (h : heap) (this : loc) (t : TrackSignaling)
    (x y : value) (k k' : nat) :
  h !! this = Some (Entity t) →
  transceiver t = None →
  let p := TransceiverPromise this in
  let asked_before := then_ p k h in
  let set_x :=
    setMediaStreamTrackOrDataTrackTransceiver this x (final asked_before) in
  let asked_after := then_ p k' (final set_x) in
  let set_y :=
    setMediaStreamTrackOrDataTrackTransceiver this y (final asked_after) in
  getMediaStreamTrackOrDataTrackTransceiver this h = (Return p, h, [])
  ∧ getMediaStreamTrackOrDataTrackTransceiver this (final set_x)
    = (Return p, final set_x, [])
  ∧ settled h p = None
  ∧ result set_x = Return this
  ∧ settled (final set_x) p = Some x
  ∧ events set_x = (λ k, Deliver this k x) <$> (waiting t ++ [k])
  ∧ asked_after = (Return tt, final set_x, [Deliver this k' x])
  ∧ set_y = (Return this, final set_x, [])
  ∧ settled (final set_y) p = Some x.
Proof.
  intros Hl Hnone p asked_before set_x asked_after set_y.
  assert (Hbefore : asked_before
    = (Return tt, <[this := Entity (set_deferred None (waiting t ++ [k]) t)]> h, [])).
  { unfold asked_before, p. by rewrite (then_run _ _ _ _ Hl), Hnone. }
  set (t1 := set_deferred None (waiting t ++ [k]) t) in *.
  assert (Hl1 : final asked_before !! this = Some (Entity t1)).
  { rewrite Hbefore. unfold final; simpl. apply lookup_insert_eq. }
  assert (Hset : set_x
    = (Return this, <[this := Entity (set_deferred (Some x) [] t1)]>
                      (final asked_before),
       (λ k, Deliver this k x) <$> (waiting t ++ [k]))).
  { unfold set_x. by rewrite (set_transceiver_run _ _ _ _ Hl1). }
  set (t2 := set_deferred (Some x) [] t1) in *.
  assert (Hl2 : final set_x !! this = Some (Entity t2)).
  { rewrite Hset. unfold final; simpl. apply lookup_insert_eq. }
  assert (Hafter : asked_after = (Return tt, final set_x, [Deliver this k' x])).
  { unfold asked_after, p. by rewrite (then_run _ _ _ _ Hl2). }
  assert (Hl3 : final asked_after !! this = Some (Entity t2)).
  { by rewrite Hafter. }
  assert (Hsety : set_y = (Return this, final set_x, [])).
  { unfold set_y. rewrite (set_transceiver_run _ _ _ _ Hl3). simpl.
    by rewrite Hafter. }
  repeat split.
  - by apply get_transceiver_run with t.
  - by apply get_transceiver_run with t2.
  - unfold settled, p. by rewrite Hl.
  - by rewrite Hset.
  - unfold settled, p. by rewrite Hl2.
  - by rewrite Hset.
  - done.
  - done.
  - rewrite Hsety. unfold settled, p, final at 1. simpl. by rewrite Hl2.
Qed.

Lemma C4_witness :
  heap_remote !! 0 = Some (Entity remote_t1)
  ∧ transceiver remote_t1 = None
  ∧ result (setMediaStreamTrackOrDataTrackTransceiver 0 (VRef 7)
              (final (then_ (TransceiverPromise 0) 1 heap_remote)))
    = Return 0
  ∧ settled (final (setMediaStreamTrackOrDataTrackTransceiver 0 (VRef 7)
                      (final (then_ (TransceiverPromise 0) 1 heap_remote))))
            (TransceiverPromise 0)
    = Some (VRef 7)
  ∧ events (setMediaStreamTrackOrDataTrackTransceiver 0 (VRef 7)
              (final (then_ (TransceiverPromise 0) 1 heap_remote)))
    = [Deliver 0 1 (VRef 7)].
Proof.
  assert (Hl : heap_remote !! 0 = Some (Entity remote_t1)) by reflexivity.
  split; [exact Hl|]. split; [reflexivity|].
  destruct (C4_transceiver_resolves_once heap_remote 0 remote_t1 (VRef 7)
              (VRef 8) 1 2 Hl eq_refl)
    as (_ & _ & _ & Hres & Hset & Hev & _).
  exact (conj Hres (conj Hset Hev)).
Defined.

(** ** LocalTrackPublicationV2 *)




(** A sequence of calls on [this] leaves every other location alone. *)
Lemma run_frame (this : loc) (cs : list invocation) (h : heap) (t : TrackSignaling)
    (l : loc) :
  h !! this = Some (Entity t) → l ≠ this → (run this cs h).2 !! l = h !! l.
Proof.
  revert h t. induction cs as [|c cs IH]; intros h t Hl Hne; [done|].
  simpl. destruct (invoke_run h this t c Hl) as (t' & Hrun & _).
  rewrite Hrun. unfold final; simpl.
  rewrite (IH _ t') by (by rewrite ?lookup_insert_eq).
  by rewrite lookup_insert_ne.
Qed.

(** C6.  For every LocalTrackPublicationV2, whether or not a sid has been
    assigned, getState returns a newly allocated object whose own properties
    are exactly enabled, id, kind and name, holding the entity's current
    isEnabled, id, kind and name; it has no sid property; and no later
    sequence of enable / disable / update calls on the entity changes it. *)
Theorem C6_getState_snapshot (h : heap) (this : loc) (t : TrackSignaling) :
  h !! this = Some (Entity t) →
  ∃ (snapshot : loc) (o : object),
    LocalTrackPublicationV2.getState this h
    = (Return snapshot, <[snapshot := Object o]> h, [])
    ∧ h !! snapshot = None
    ∧ dom o = {[ "enabled"; "id"; "kind"; "name" ]}
    ∧ o !! "sid" = None
    ∧ get "enabled" o = VBool (isEnabled t)
    ∧ get "id" o = VStr (id t)
    ∧ get "kind" o = VStr (kind t)
    ∧ get "name" o = VStr (name t)
    ∧ ∀ cs, (run this cs (<[snapshot := Object o]> h)).2 !! snapshot
            = Some (Object o).
Proof.
  intros Hl. unfold LocalTrackPublicationV2.getState.
  as_entity Hl.
  unfold alloc; simpl.
  assert (Hfresh : h !! fresh (dom h) = None).
  { apply not_elem_of_dom, is_fresh. }
  eexists _, _. split; [reflexivity|]. split; [exact Hfresh|].
  split. { rewrite !dom_insert_L, dom_empty_L. set_solver. }
  unfold get. repeat split; try done.
  intros cs.
  assert (Hne : fresh (dom h) ≠ this).
  { intros Heq. rewrite Heq in Hfresh. congruence. }
  rewrite (run_frame this cs _ t) by (by rewrite ?lookup_insert_ne).
  apply lookup_insert_eq.
Qed.

Lemma C6_witness :
  heap_publication !! 5 = Some (Entity publication_t2)
  ∧ ∃ (snapshot : loc) (o : object),
      result (LocalTrackPublicationV2.getState 5 heap_publication)
      = Return snapshot
      ∧ o !! "sid" = None
      ∧ get "enabled" o = VBool true
      ∧ get "id" o = VStr "t2"
      ∧ (run 5 [Disable; Update state_with_sid]
             (<[snapshot := Object o]> heap_publication)).2 !! snapshot
        = Some (Object o).
Proof.
  assert (Hl : heap_publication !! 5 = Some (Entity publication_t2))
    by reflexivity.
  split; [exact Hl|].
  destruct (C6_getState_snapshot heap_publication 5 publication_t2 Hl)
    as (snapshot & o & Hr & _ & _ & Hsid & Hen & Hid & _ & _ & Hlater).
  exists snapshot, o.
  split; [exact (f_equal result Hr)|].
  exact (conj Hsid (conj Hen (conj Hid (Hlater _)))).
Defined.

(** ** LocalDataTrack *)

Section LocalDataTrack_properties.
Context `{Requires}.

Lemma option_insert_ne (k k' : string) (v : value) (options : gmap string value) :
  k' ≠ k → option_ k (<[k' := v]> options) = option_ k options.
Proof. intros Hne. unfold option_. by rewrite lookup_insert_ne. Qed.

Lemma defaults_name : defaults !! "name" = None.
Proof. unfold defaults. by rewrite !lookup_insert_ne, lookup_empty. Qed.

(** "name" is among the merged options exactly when the caller gave it. *)
Lemma merged_name (options : gmap string value) (log : value) :
  <["log" := log]> (assign defaults options) !! "name" = options !! "name".
Proof.
  rewrite lookup_insert_ne by done. unfold assign.
  rewrite lookup_union, defaults_name. by destruct (options !! "name").
Qed.

Lemma defineProperty_new h this o k d :
  h !! this = Some (Object o) → o !! k = None →
  defineProperty this (k, d) h
  = (Return tt, <[this := Object (<[k := prop_of_descriptor d]> o)]> h, []).
Proof.
  intros Hl Hk. unfold defineProperty.
  as_object Hl. simpl.
  unfold define_property. by rewrite Hk.
Qed.

(** Defining properties that are all new, under distinct names. *)
Lemma defineProperties_new h this o ds :
  h !! this = Some (Object o) →
  NoDup ds.*1 → Forall (λ k, o !! k = None) ds.*1 →
  defineProperties this ds h
  = (Return tt,
     <[this := Object (foldl (λ o kd, <[kd.1 := prop_of_descriptor kd.2]> o) o ds)]> h,
     []).
Proof.
  revert h o. induction ds as [|[k d] ds IH]; intros h o Hl Hnd Hnew; simpl.
  { unfold mret, M_ret. by rewrite insert_id. }
  apply NoDup_cons in Hnd as [Hk Hnd].
  unfold defineProperties in *. simpl. unfold mbind, M_bind.
  apply Forall_cons in Hnew as [Hnew1 Hnew].
  rewrite (defineProperty_new _ _ _ _ _ Hl) by done.
  rewrite (IH _ (<[k := prop_of_descriptor d]> o)); simpl.
  - by rewrite insert_insert_eq.
  - apply lookup_insert_eq.
  - done.
  - rewrite Forall_forall in Hnew |- *. intros k' Hk'.
    rewrite lookup_insert_ne by (intros ->; done). by apply Hnew.
Qed.

(** The constructor, evaluated: it throws exactly when the sender's
    constructor does, and otherwise leaves the sender at a new location and
    the track, with its eight properties, at another. *)
Lemma LocalDataTrack_eval (options : option (gmap string value)) (h : heap) :
  let this := fresh (dom h) in
  let h0 : heap := <[this := Object ∅]> h in
  let opts := assign defaults (default ∅ options) in
  let h1 : heap :=
    if truthy (option_ "log" opts) then h0
    else <[fresh (dom h0) :=
             Object (Log (VStr "default") this
                         (buildLogLevels (option_ "logLevel" opts)))]> h0 in
  let maxPacketLifeTime := option_ "maxPacketLifeTime" opts in
  let maxRetransmits := option_ "maxRetransmits" opts in
  let ordered := option_ "ordered" opts in
  LocalDataTrack options h =
    match construct (option_ "DataTrackSender" opts)
                    [maxPacketLifeTime; maxRetransmits; ordered] with
    | None => (ThrowTypeError, h1, [])
    | Some sender =>
        let s := fresh (dom h1) in
        (Return this,
         <[this := Object (constructed s (get "id" sender)
                             (default (get "id" sender)
                                      (default ∅ options !! "name"))
                             maxPacketLifeTime maxRetransmits ordered)]>
           (<[s := Object sender]> h1),
         [])
    end.
Proof.
  intros this h0 opts h1 mplt mr ord.
  unfold LocalDataTrack.
  rewrite (bind_silent _ _ h this h0) by done.
  fold opts.
  set (log := if truthy (option_ "log" opts) then option_ "log" opts
              else VRef (fresh (dom h0))).
  assert (Hthis : h1 !! this = Some (Object ∅)).
  { unfold h1. destruct (truthy _).
    - apply lookup_insert_eq.
    - rewrite lookup_insert_ne; [apply lookup_insert_eq|].
      intros Heq. apply (is_fresh (dom h0)). rewrite Heq.
      unfold h0. rewrite dom_insert_L. set_solver. }
  rewrite (bind_silent _ _ h0 log h1).
  2:{ unfold log, h1. destruct (truthy _); [done|].
      by erewrite bind_silent by reflexivity. }
  rewrite !option_insert_ne by done. fold mplt mr ord.
  unfold new. destruct (construct _ _) as [sender|]; [|by apply bind_throw].
  set (s := fresh (dom h1)).
  assert (Hs : s ≠ this).
  { intros Heq. apply (is_fresh (dom h1)). fold s. rewrite Heq.
    apply elem_of_dom. by rewrite Hthis. }
  rewrite (bind_silent _ _ h1 s (<[s := Object sender]> h1)) by done.
  rewrite (bind_silent _ _ _ sender (<[s := Object sender]> h1)).
  2:{ apply this_object_run, lookup_insert_eq. }
  unfold Track.
  assert (Hname := merged_name (default ∅ options) log).
  fold opts in Hname. rewrite Hname. clear Hname.
  erewrite bind_silent.
  2:{ apply (defineProperties_new _ this ∅).
      - by rewrite lookup_insert_ne.
      - by apply (bool_decide_unpack _).
      - by repeat constructor. }
  erewrite bind_silent.
  2:{ apply defineProperties_new.
      - apply lookup_insert_eq.
      - by apply (bool_decide_unpack _).
      - by repeat constructor. }
  rewrite insert_insert_eq. done.
Qed.

Lemma defaults_lookup :
  defaults !! "maxPacketLifeTime" = Some VNull
  ∧ defaults !! "maxRetransmits" = Some VNull
  ∧ defaults !! "ordered" = Some (VBool true).
Proof. unfold defaults. repeat split; by simplify_map_eq. Qed.

Lemma merged_option (k : string) (d : value) (options : gmap string value) :
  defaults !! k = Some d →
  option_ k (assign defaults options) = default d (options !! k).
Proof.
  intros Hd. unfold option_, assign. rewrite lookup_union, Hd.
  by destruct (options !! k).
Qed.

Lemma constructed_properties s id name mplt mr ord :
  let o := constructed s id name mplt mr ord in
  o !! "id" = Some (Prop_ id false true false)
  ∧ o !! "kind" = Some (Prop_ (VStr "data") false true false)
  ∧ o !! "name" = Some (Prop_ name false true false)
  ∧ o !! "_dataTrackSender" = Some (Prop_ (VRef s) false false false)
  ∧ o !! "maxPacketLifeTime" = Some (Prop_ mplt false true false)
  ∧ o !! "maxRetransmits" = Some (Prop_ mr false true false)
  ∧ o !! "ordered" = Some (Prop_ ord false true false)
  ∧ o !! "reliable"
    = Some (Prop_ (VBool (strict_eq mplt VNull && strict_eq mr VNull))
                  false true false).
Proof. by repeat split. Qed.

(** What a normal return of the constructor tells about the heap. *)
Lemma LocalDataTrack_inv options h this h' tr :
  LocalDataTrack options h = (Return this, h', tr) →
  ∃ s sender,
    tr = [] ∧ h !! this = None ∧ s ≠ this
    ∧ h' !! s = Some (Object sender)
    ∧ h' !! this
      = Some (Object (constructed s (get "id" sender)
                        (default (get "id" sender) (default ∅ options !! "name"))
                        (default VNull (default ∅ options !! "maxPacketLifeTime"))
                        (default VNull (default ∅ options !! "maxRetransmits"))
                        (default (VBool true) (default ∅ options !! "ordered")))).
Proof.
  rewrite LocalDataTrack_eval.
  destruct defaults_lookup as (Hm & Hr & Ho).
  rewrite !(merged_option _ _ _ Hm), !(merged_option _ _ _ Hr),
          !(merged_option _ _ _ Ho).
  destruct (construct _ _) as [sender|]; [|done].
  set (h1 := if truthy _ then _ else _).
  assert (Hthis : is_Some (h1 !! fresh (dom h))).
  { unfold h1. destruct (truthy _).
    - rewrite lookup_insert_eq. by eexists.
    - destruct (decide (fresh (dom (<[fresh (dom h) := Object ∅]> h))
                        = fresh (dom h))) as [->|Hne].
      + rewrite lookup_insert_eq. by eexists.
      + rewrite lookup_insert_ne, lookup_insert_eq by done. by eexists. }
  intros [= <- <- <-]. exists (fresh (dom h1)), sender.
  assert (Hs : fresh (dom h1) ≠ fresh (dom h)).
  { intros Heq. apply (is_fresh (dom h1)). rewrite Heq. by apply elem_of_dom. }
  split; [done|]. split; [apply not_elem_of_dom, is_fresh|]. split; [done|].
  split; [by rewrite lookup_insert_ne, lookup_insert_eq|].
  by rewrite lookup_insert_eq.
Qed.

Lemma strict_eq_null (v : value) : strict_eq v VNull = true ↔ v = VNull.
Proof. unfold strict_eq. apply bool_decide_eq_true. Qed.

(** C7.  For every LocalDataTrack, reliable is true if and only if its
    maxPacketLifeTime and maxRetransmits are both null; constructed with
    neither option given, both are null and reliable is true; constructed
    with either option set to a value other than null, reliable is false. *)
Theorem C7_reliable_iff_both_null (options : option (gmap string value))
    (h h' : heap) (this : loc) (tr : list event) :
  LocalDataTrack options h = (Return this, h', tr) →
  (get_at h' this "reliable" = VBool true
   ↔ get_at h' this "maxPacketLifeTime" = VNull
     ∧ get_at h' this "maxRetransmits" = VNull)
  ∧ (get_at h' this "reliable" = VBool true
     ∨ get_at h' this "reliable" = VBool false)
  ∧ (default ∅ options !! "maxPacketLifeTime" = None →
     default ∅ options !! "maxRetransmits" = None →
     get_at h' this "maxPacketLifeTime" = VNull
     ∧ get_at h' this "maxRetransmits" = VNull
     ∧ get_at h' this "reliable" = VBool true)
  ∧ (∀ v, v ≠ VNull →
     default ∅ options !! "maxPacketLifeTime" = Some v
     ∨ default ∅ options !! "maxRetransmits" = Some v →
     get_at h' this "reliable" = VBool false).
Proof.
  intros Hnew.
  destruct (LocalDataTrack_inv _ _ _ _ _ Hnew) as (s & sender & _ & _ & _ & _ & Hthis).
  unfold get_at. rewrite Hthis.
  set (mplt := default VNull (default ∅ options !! "maxPacketLifeTime")).
  set (mr := default VNull (default ∅ options !! "maxRetransmits")).
  set (sender_id := get "id" sender).
  destruct (constructed_properties s sender_id
              (default sender_id (default ∅ options !! "name")) mplt mr
              (default (VBool true) (default ∅ options !! "ordered")))
    as (_ & _ & _ & _ & Hm & Hr & _ & Hrel).
  unfold get. rewrite Hm, Hr, Hrel. simpl.
  split; [|split; [|split]].
  - split.
    + intros [= [?%strict_eq_null ?%strict_eq_null]%andb_true_iff]. done.
    + intros [-> ->]. done.
  - destruct (strict_eq mplt VNull && strict_eq mr VNull); auto.
  - intros Hnm Hnr. unfold mplt, mr. by rewrite Hnm, Hnr.
  - intros v Hv Hset. f_equal. apply andb_false_iff.
    destruct Hset as [Hset|Hset]; [left|right];
      unfold mplt, mr; rewrite Hset; simpl;
      unfold strict_eq; by apply bool_decide_eq_false.
Qed.

(** C8.  For every LocalDataTrack, whatever sender the constructor in its
    options produced: id is that sender's id, kind is "data", and name is
    options.name when the options have one and the sender's id otherwise. *)
Theorem C8_id_kind_name (options : option (gmap string value))
    (h h' : heap) (this : loc) (tr : list event) :
  LocalDataTrack options h = (Return this, h', tr) →
  ∃ s, get_at h' this "_dataTrackSender" = VRef s
       ∧ get_at h' this "id" = get_at h' s "id"
       ∧ get_at h' this "kind" = VStr "data"
       ∧ get_at h' this "name"
         = match default ∅ options !! "name" with
           | Some name => name
           | None => get_at h' s "id"
           end.
Proof.
  intros Hnew.
  destruct (LocalDataTrack_inv _ _ _ _ _ Hnew)
    as (s & sender & _ & _ & _ & Hs & Hthis).
  exists s. unfold get_at. rewrite Hthis, Hs.
  set (sender_id := get "id" sender).
  destruct (constructed_properties s sender_id
              (default sender_id (default ∅ options !! "name"))
              (default VNull (default ∅ options !! "maxPacketLifeTime"))
              (default VNull (default ∅ options !! "maxRetransmits"))
              (default (VBool true) (default ∅ options !! "ordered")))
    as (Hid & Hkind & Hname & Hsender & _).
  unfold get. rewrite Hid, Hkind, Hname, Hsender. simpl.
  by repeat split.
Qed.

(** *** Non-writable, non-configurable properties stay as they are *)

Lemma apply_descriptor_frozen (d : descriptor) (p : prop) :
  p_writable p = false → p_configurable p = false →
  descriptor_allowed d p = true → apply_descriptor d p = p.
Proof.
  destruct p as [v w e c], d as [dv dw de dc]. simpl. intros -> ->.
  unfold descriptor_allowed, apply_descriptor. simpl.
  rewrite !andb_true_iff, !negb_true_iff, !bool_decide_eq_true,
          !bool_decide_eq_false.
  intros [[Hc He] [Hw Hv]].
  destruct dc as [[]|], dw as [[]|]; try done; simpl;
    destruct He as [->| ->], Hv as [->| ->]; done.
Qed.

Lemma put_frozen (o o' : object) (k k' : string) (v : value) (p : prop) :
  o !! k = Some p → p_writable p = false →
  put k' v o = Some o' → o' !! k = Some p.
Proof.
  intros Hk Hw. unfold put.
  destruct (decide (k' = k)) as [->|Hne].
  - by rewrite Hk, Hw.
  - destruct (o !! k') as [q|]; [destruct (p_writable q)|];
      intros [= <-]; by rewrite ?lookup_insert_ne.
Qed.

Lemma delete_frozen (o o' : object) (k k' : string) (p : prop) :
  o !! k = Some p → p_configurable p = false →
  delete_property k' o = Some o' → o' !! k = Some p.
Proof.
  intros Hk Hc. unfold delete_property.
  destruct (decide (k' = k)) as [->|Hne].
  - by rewrite Hk, Hc.
  - destruct (o !! k') as [q|]; [destruct (p_configurable q)|];
      intros [= <-]; by rewrite ?lookup_delete_ne.
Qed.

Lemma define_frozen (o o' : object) (k k' : string) (d : descriptor) (p : prop) :
  o !! k = Some p → p_writable p = false → p_configurable p = false →
  define_property k' d o = Some o' → o' !! k = Some p.
Proof.
  intros Hk Hw Hc. unfold define_property.
  destruct (decide (k' = k)) as [->|Hne].
  - rewrite Hk. destruct (descriptor_allowed d p) eqn:Hd; [|done].
    intros [= <-]. by rewrite lookup_insert_eq, apply_descriptor_frozen.
  - destruct (o !! k') as [q|]; [destruct (descriptor_allowed d q)|];
      intros [= <-]; by rewrite ?lookup_insert_ne.
Qed.

Lemma lift_frozen (f : object → option object) (h : heap) (this : loc)
    (k : string) (p : prop) :
  (∀ o o', o !! k = Some p → f o = Some o' → o' !! k = Some p) →
  property_at h this k = Some p →
  property_at (final (lift f this h)) this k = Some p.
Proof.
  intros Hf Hp. unfold property_at in Hp.
  destruct (h !! this) as [[t|o]|] eqn:Hl; try done.
  unfold lift. as_object Hl.
  destruct (f o) as [o'|] eqn:Hfo.
  - unfold mbind, M_bind, write, final, property_at. simpl.
    rewrite lookup_insert_eq. by apply (Hf o).
  - unfold throw, final, property_at. simpl. by rewrite Hl.
Qed.

Lemma lift_frame (f : object → option object) (h : heap) (this l : loc) :
  l ≠ this → final (lift f this h) !! l = h !! l.
Proof.
  intros Hne. unfold lift, this_object, read, mbind, M_bind, final. simpl.
  destruct (h !! this) as [[t|o]|]; try done. simpl.
  destruct (f o); simpl; [|done]. by rewrite lookup_insert_ne.
Qed.

Lemma send_run (h : heap) (this s : loc) (sender : object) (data : value) :
  owns_sender h this s → h !! s = Some (Object sender) →
  send this data h
  = match DataTrackSender_send data sender with
    | NotCallable => (ThrowTypeError, h, [])
    | Raised after =>
        (ThrowError, <[s := Object after]> h, [Call s "send" [data]])
    | Returned after =>
        (Return VUndefined, <[s := Object after]> h, [Call s "send" [data]])
    end.
Proof.
  intros (Hne & _ & Hp & _) Hs. unfold property_at in Hp.
  destruct (h !! this) as [[t|o]|] eqn:Hl; try done.
  unfold send. as_object Hl.
  unfold get. rewrite Hp. simpl.
  as_object Hs. by destruct (DataTrackSender_send data sender).
Qed.

(** However the call ends, send writes to the sender only, and the sender
    stays an object. *)
Lemma send_frame (h : heap) (this s : loc) (data : value) :
  owns_sender h this s →
  (∀ l, l ≠ s → final (send this data h) !! l = h !! l)
  ∧ ∃ sender, final (send this data h) !! s = Some (Object sender).
Proof.
  intros Hown. pose proof Hown as (Hne & [sender Hs] & _).
  rewrite (send_run h this s sender data Hown Hs).
  destruct (DataTrackSender_send data sender) as [|after|after];
    unfold final; simpl.
  - split; [done|by eexists].
  - split; [|rewrite lookup_insert_eq; by eexists].
    intros l Hl. by rewrite lookup_insert_ne.
  - split; [|rewrite lookup_insert_eq; by eexists].
    intros l Hl. by rewrite lookup_insert_ne.
Qed.

Lemma perform_frozen (h : heap) (this s : loc) (op : operation) (k : string)
    (p : prop) :
  owns_sender h this s → frozen h this k p →
  frozen (final (perform this op h)) this k p.
Proof.
  intros Hown (Hp & Hw & Hc). split; [|done].
  destruct op as [data|k' v|k'|k' d]; simpl.
  - pose proof Hown as (Hne & _).
    destruct (send_frame h this s data Hown) as [Hframe _].
    unfold property_at in *. by rewrite Hframe.
  - apply lift_frozen; [|done]. intros o o' Ho. by apply put_frozen.
  - apply lift_frozen; [|done]. intros o o' Ho. by apply delete_frozen.
  - apply lift_frozen; [|done]. intros o o' Ho. by apply define_frozen.
Qed.

Lemma perform_owns_sender (h : heap) (this s : loc) (op : operation) :
  owns_sender h this s → owns_sender (final (perform this op h)) this s.
Proof.
  intros Hown. pose proof Hown as (Hne & [sender Hs] & Hsp).
  split; [done|]. split; [|by apply (perform_frozen _ _ s)].
  destruct op as [data|k' v|k'|k' d]; simpl.
  - by destruct (send_frame h this s data Hown) as [_ ?].
  - rewrite lift_frame by done. by eexists.
  - rewrite lift_frame by done. by eexists.
  - rewrite lift_frame by done. by eexists.
Qed.

Lemma perform_all_owns_sender (h : heap) (this s : loc) (ops : list operation) :
  owns_sender h this s → owns_sender (perform_all this ops h) this s.
Proof.
  revert h. induction ops as [|op ops IH]; intros h Hown; [done|].
  simpl. by apply IH, perform_owns_sender.
Qed.

Lemma perform_all_frozen (h : heap) (this s : loc) (ops : list operation)
    (k : string) (p : prop) :
  owns_sender h this s → frozen h this k p →
  frozen (perform_all this ops h) this k p.
Proof.
  revert h. induction ops as [|op ops IH]; intros h Hown Hfr; [done|].
  simpl. apply IH; [by apply perform_owns_sender | by apply (perform_frozen _ _ s)].
Qed.

(** A constructed track owns its sender, and its five own properties are
    non-writable and non-configurable. *)
Lemma LocalDataTrack_owns_sender options h this h' tr :
  LocalDataTrack options h = (Return this, h', tr) →
  ∃ s, owns_sender h' this s
       ∧ ∀ k, k ∈ own_properties → ∃ p, frozen h' this k p.
Proof.
  intros Hnew.
  destruct (LocalDataTrack_inv _ _ _ _ _ Hnew)
    as (s & sender & _ & _ & Hne & Hs & Hthis).
  set (sender_id := get "id" sender) in *.
  destruct (constructed_properties s sender_id
              (default sender_id (default ∅ options !! "name"))
              (default VNull (default ∅ options !! "maxPacketLifeTime"))
              (default VNull (default ∅ options !! "maxRetransmits"))
              (default (VBool true) (default ∅ options !! "ordered")))
    as (_ & _ & _ & Hsender & Hm & Hr & Ho & Hrel).
  exists s. split.
  - split; [done|]. split; [by eexists|].
    unfold frozen, property_at. by rewrite Hthis.
  - intros k Hk. unfold own_properties in Hk.
    rewrite !elem_of_cons, elem_of_nil in Hk.
    unfold frozen, property_at. rewrite Hthis.
    destruct Hk as [->|[->|[->|[->|[->|[]]]]]]; eauto.
Qed.

(** C9.  For every LocalDataTrack, in whatever state later operations have
    left it, and every payload: send(payload) calls the send of the sender
    the track owns exactly once, with the payload as it was given, and
    leaves the track object, and every object but the sender, as it was.
    It returns undefined when that call returns, and the call's exception
    escapes when it raises.  (A sender without a callable send is no
    DataTrackSender: then send throws a TypeError, calls nothing and
    changes nothing.) *)
Theorem C9_send_forwards_once (options : option (gmap string value))
    (h h' : heap) (this : loc) (tr : list event) (ops : list operation)
    (data : value) :
  LocalDataTrack options h = (Return this, h', tr) →
  let h'' := perform_all this ops h' in
  ∃ s sender,
    get_at h' this "_dataTrackSender" = VRef s
    ∧ get_at h'' this "_dataTrackSender" = VRef s
    ∧ h'' !! s = Some (Object sender)
    ∧ (DataTrackSender_send data sender ≠ NotCallable →
       events (send this data h'') = [Call s "send" [data]])
    ∧ (∀ after, DataTrackSender_send data sender = Returned after →
       send this data h''
       = (Return VUndefined, <[s := Object after]> h'', [Call s "send" [data]]))
    ∧ (∀ after, DataTrackSender_send data sender = Raised after →
       send this data h''
       = (ThrowError, <[s := Object after]> h'', [Call s "send" [data]]))
    ∧ (DataTrackSender_send data sender = NotCallable →
       send this data h'' = (ThrowTypeError, h'', []))
    ∧ final (send this data h'') !! this = h'' !! this
    ∧ ∀ l, l ≠ s → final (send this data h'') !! l = h'' !! l.
Proof.
  intros Hnew h''.
  destruct (LocalDataTrack_owns_sender _ _ _ _ _ Hnew) as (s & Hown & _).
  assert (Hown' : owns_sender h'' this s) by by apply perform_all_owns_sender.
  assert (Hget : ∀ g, owns_sender g this s → get_at g this "_dataTrackSender" = VRef s).
  { intros g (_ & _ & Hp & _). unfold property_at, get_at, get in *.
    destruct (g !! this) as [[?|o]|]; try done. by rewrite Hp. }
  pose proof Hown' as (Hne & [sender Hs] & _).
  destruct (send_frame h'' this s data Hown') as [Hframe _].
  exists s, sender.
  split; [by apply Hget|]. split; [by apply Hget|]. split; [done|].
  rewrite (send_run h'' this s sender data Hown' Hs).
  repeat split.
  - by destruct (DataTrackSender_send data sender).
  - by intros after ->.
  - by intros after ->.
  - by intros ->.
  - rewrite <- (send_run h'' this s sender data Hown' Hs). by apply Hframe.
  - intros l Hl. rewrite <- (send_run h'' this s sender data Hown' Hs).
    by apply Hframe.
Qed.

(** C10.  The sender a LocalDataTrack owns and its maxPacketLifeTime,
    maxRetransmits, ordered and reliable are defined at construction as
    properties that are neither writable nor configurable, and no later
    sequence of operations (send, or an attempt to assign, delete or
    redefine a property) changes them. *)
Theorem C10_own_properties_fixed (options : option (gmap string value))
    (h h' : heap) (this : loc) (tr : list event) (k : string) :
  LocalDataTrack options h = (Return this, h', tr) →
  k ∈ own_properties →
  ∃ p, property_at h' this k = Some p
       ∧ p_writable p = false ∧ p_configurable p = false
       ∧ ∀ ops, property_at (perform_all this ops h') this k = Some p.
Proof.
  intros Hnew Hk.
  destruct (LocalDataTrack_owns_sender _ _ _ _ _ Hnew) as (s & Hown & Hfr).
  destruct (Hfr k Hk) as [p Hp]. exists p.
  pose proof Hp as (Hp1 & Hp2 & Hp3). repeat split; try done.
  intros ops. by apply (perform_all_frozen _ _ s).
Qed.
End LocalDataTrack_properties.

Lemma C7_witness :
  @LocalDataTrack stub options_foo ∅ = (Return 0, heap_foo, [])
  ∧ get_at heap_foo 0 "maxRetransmits" = VNum 3
  ∧ get_at heap_foo 0 "reliable" = VBool false.
Proof.
  assert (Hnew : @LocalDataTrack stub options_foo ∅ = (Return 0, heap_foo, []))
    by (vm_compute; reflexivity).
  split; [exact Hnew|]. split; [vm_compute; reflexivity|].
  destruct (@C7_reliable_iff_both_null stub options_foo ∅ heap_foo 0 [] Hnew)
    as (_ & _ & _ & Hset).
  apply (Hset (VNum 3)); [discriminate|]. right. vm_compute; reflexivity.
Defined.

Lemma C8_witness :
  @LocalDataTrack stub options_foo ∅ = (Return 0, heap_foo, [])
  ∧ ∃ s, get_at heap_foo 0 "id" = get_at heap_foo s "id"
         ∧ get_at heap_foo 0 "kind" = VStr "data"
         ∧ get_at heap_foo 0 "name" = VStr "foo".
Proof.
  assert (Hnew : @LocalDataTrack stub options_foo ∅ = (Return 0, heap_foo, []))
    by (vm_compute; reflexivity).
  split; [exact Hnew|].
  destruct (@C8_id_kind_name stub options_foo ∅ heap_foo 0 [] Hnew)
    as (s & _ & Hid & Hkind & Hname).
  exists s. exact (conj Hid (conj Hkind Hname)).
Defined.

Lemma C9_witness :
  @LocalDataTrack stub None ∅ = (Return 0, heap_default, [])
  ∧ ∃ s sender,
      get_at heap_default 0 "_dataTrackSender" = VRef s
      ∧ @DataTrackSender_send stub (VStr "hello") sender ≠ NotCallable
      ∧ events (@send stub 0 (VStr "hello")
                  (@perform_all stub 0 [Assign "ordered" (VBool false)]
                                heap_default))
        = [Call s "send" [VStr "hello"]].
Proof.
  assert (Hnew : @LocalDataTrack stub None ∅ = (Return 0, heap_default, []))
    by (vm_compute; reflexivity).
  split; [exact Hnew|].
  destruct (@C9_send_forwards_once stub None ∅ heap_default 0 []
              [Assign "ordered" (VBool false)] (VStr "hello") Hnew)
    as (s & sender & Hs & _ & _ & Hev & _).
  assert (Hcallable : @DataTrackSender_send stub (VStr "hello") sender
                      ≠ NotCallable) by discriminate.
  exists s, sender. exact (conj Hs (conj Hcallable (Hev Hcallable))).
Defined.

Lemma C10_witness :
  @LocalDataTrack stub None ∅ = (Return 0, heap_default, [])
  ∧ "reliable" ∈ own_properties
  ∧ ∃ p, property_at heap_default 0 "reliable" = Some p
         ∧ property_at
             (@perform_all stub 0
                [Assign "reliable" (VBool false); Send (VStr "x");
                 Delete "reliable"] heap_default) 0 "reliable" = Some p.
Proof.
  assert (Hnew : @LocalDataTrack stub None ∅ = (Return 0, heap_default, []))
    by (vm_compute; reflexivity).
  assert (Hk : "reliable" ∈ own_properties).
  { apply (bool_decide_unpack _). vm_compute. exact I. }
  split; [exact Hnew|]. split; [exact Hk|].
  destruct (@C10_own_properties_fixed stub None ∅ heap_default 0 [] "reliable"
              Hnew Hk) as (p & Hp & _ & _ & Hlater).
  exists p. exact (conj Hp (Hlater _)).
Defined.

(** ** The scenarios of the specification and of the unit tests *)

(** A RemoteTrackV2 built enabled and updated with enabled: false ends
    disabled, has emitted "updated" once, and update returned the entity. *)
Example scenario_remote_update_disables :
  let made := RemoteTrackV2.new (mkRepresentation true "t1" "video" "n1" (Some "s1")) ∅ in
  let updated := RemoteTrackV2.update 0 state_disabled (final made) in
  result made = Return 0
  ∧ updated = (Return 0, {[ 0 := Entity (set_isEnabled false remote_t1) ]},
               [Emit 0 "updated"]).
Proof. by vm_compute. Qed.

(** Built disabled, disable() emits nothing and isEnabled stays false. *)
Example scenario_disable_when_disabled :
  let made := RemoteTrackV2.new (mkRepresentation false "t1" "video" "n1" (Some "s1")) ∅ in
  disable 0 (final made) = (Return 0, final made, [])
  ∧ isEnabled_at (final made) 0 = Some false.
Proof. by vm_compute. Qed.

(** The setter returns the RemoteTrackV2, and an observer of the promise
    taken before it is called is handed the transceiver. *)
Example scenario_transceiver_before_and_after :
  let h : heap := {[ 0 := Entity remote_t1 ]} in
  let asked := then_ (TransceiverPromise 0) 1 h in
  let set := setMediaStreamTrackOrDataTrackTransceiver 0 (VRef 7) (final asked) in
  result set = Return 0
  ∧ events set = [Deliver 0 1 (VRef 7)]
  ∧ events (then_ (TransceiverPromise 0) 2 (final set)) = [Deliver 0 2 (VRef 7)].
Proof. by vm_compute. Qed.

(** [new LocalDataTrack()] over a sender whose id is "abc". *)
Example scenario_LocalDataTrack_defaults :
  result (@LocalDataTrack stub None ∅) = Return 0
  ∧ get_at heap_default 0 "id" = VStr "abc"
  ∧ get_at heap_default 0 "kind" = VStr "data"
  ∧ get_at heap_default 0 "name" = VStr "abc"
  ∧ get_at heap_default 0 "ordered" = VBool true
  ∧ get_at heap_default 0 "reliable" = VBool true.
Proof. by vm_compute. Qed.

(** [new LocalDataTrack({ name: 'foo', maxRetransmits: 3 })]. *)
Example scenario_LocalDataTrack_named :
  get_at heap_foo 0 "name" = VStr "foo"
  ∧ get_at heap_foo 0 "id" = VStr "abc"
  ∧ get_at heap_foo 0 "maxPacketLifeTime" = VNull
  ∧ get_at heap_foo 0 "reliable" = VBool false.
Proof. by vm_compute. Qed.

(** An explicit [undefined] overrides the default null, and the track is
    then not reliable. *)
Example scenario_LocalDataTrack_undefined_option :
  get_at (final (@LocalDataTrack stub
                   (Some (<["maxPacketLifeTime" := VUndefined]> ∅)) ∅))
         0 "reliable" = VBool false.
Proof. by vm_compute. Qed.

(** [track.send(data)] calls the sender's send once, with [data]; an
    assignment to a property of the track throws and changes nothing. *)
Example scenario_send :
  events (@send stub 0 (VStr "payload") heap_default)
  = [Call 2 "send" [VStr "payload"]]
  ∧ @perform stub 0 (Assign "reliable" (VBool false)) heap_default
    = (ThrowTypeError, heap_default, []).
Proof. by vm_compute. Qed.

(** getState of a publication that has a sid: four properties, no sid. *)
Example scenario_getState_without_sid :
  let h : heap := {[ 5 := Entity (set_sid (Some "MT1") publication_t2) ]} in
  result (LocalTrackPublicationV2.getState 5 h) = Return 6
  ∧ final (LocalTrackPublicationV2.getState 5 h) !! 6
    = Some (Object (<["enabled" := plain (VBool true)]>
                  (<["id" := plain (VStr "t2")]>
                   (<["kind" := plain (VStr "audio")]>
                    (<["name" := plain (VStr "mic")]> ∅))))).
Proof. by vm_compute. Qed.

(** * Further properties of the code *)

(** ** The LocalDataTrack constructor *)

Section LocalDataTrack_more.
Context `{Requires}.

Lemma defaults_DataTrackSender :
  defaults !! "DataTrackSender" = Some DefaultDataTrackSender.
Proof. unfold defaults. by simplify_map_eq. Qed.

(** The heap after the optional Log has been made still holds the new
    track, empty, and everything the heap held before. *)
Lemma logged_heap (h : heap) (log_object : object) (b : bool) :
  let this := fresh (dom h) in
  let h0 : heap := <[this := Object ∅]> h in
  let h1 : heap := if b then h0 else <[fresh (dom h0) := Object log_object]> h0 in
  h !! this = None
  ∧ h1 !! this = Some (Object ∅)
  ∧ ∀ l, is_Some (h !! l) → h1 !! l = h !! l.
Proof.
  intros this h0 h1.
  assert (Hthis : h !! this = None) by apply not_elem_of_dom, is_fresh.
  assert (H0 : h0 !! this = Some (Object ∅)) by apply lookup_insert_eq.
  assert (Hlog : fresh (dom h0) ≠ this).
  { intros Heq. apply (is_fresh (dom h0)). rewrite Heq.
    apply elem_of_dom. by rewrite H0. }
  split; [done|]. split.
  - unfold h1. destruct b; [done|]. by rewrite lookup_insert_ne.
  - intros l [c Hl].
    assert (Hne : this ≠ l) by (intros <-; congruence).
    assert (Hl0 : h0 !! l = h !! l) by (unfold h0; by rewrite lookup_insert_ne).
    unfold h1. destruct b; [done|].
    rewrite lookup_insert_ne; [done|].
    intros Heq. apply (is_fresh (dom h0)). rewrite Heq.
    apply elem_of_dom. rewrite Hl0, Hl. by eexists.
Qed.

(** Everything a normal return of the constructor tells: where the track
    and its sender are, what the sender was constructed from, and that
    nothing the heap held before has changed. *)
Lemma LocalDataTrack_built options h this h' tr :
  LocalDataTrack options h = (Return this, h', tr) →
  let given := default ∅ options in
  let maxPacketLifeTime := default VNull (given !! "maxPacketLifeTime") in
  let maxRetransmits := default VNull (given !! "maxRetransmits") in
  let ordered := default (VBool true) (given !! "ordered") in
  ∃ s sender,
    tr = [] ∧ this = fresh (dom h) ∧ h !! this = None ∧ h !! s = None ∧ s ≠ this
    ∧ construct (default DefaultDataTrackSender (given !! "DataTrackSender"))
                [maxPacketLifeTime; maxRetransmits; ordered] = Some sender
    ∧ h' !! s = Some (Object sender)
    ∧ h' !! this
      = Some (Object (constructed s (get "id" sender)
                        (default (get "id" sender) (given !! "name"))
                        maxPacketLifeTime maxRetransmits ordered))
    ∧ ∀ l, is_Some (h !! l) → h' !! l = h !! l.
Proof.
  rewrite LocalDataTrack_eval.
  destruct defaults_lookup as (Hm & Hr & Ho).
  rewrite !(merged_option _ _ _ Hm), !(merged_option _ _ _ Hr),
          !(merged_option _ _ _ Ho), !(merged_option _ _ _ defaults_DataTrackSender).
  intros Hrun given mplt mr ord. fold given mplt mr ord in Hrun.
  destruct (construct _ _) as [sender|] eqn:Hc; [|done].
  set (b := truthy _) in Hrun.
  set (log_object := Log _ _ _) in Hrun.
  destruct (logged_heap h log_object b) as (Hthis & H1 & Hframe).
  set (h1 := if b then _ else _) in *.
  assert (Hs : fresh (dom h1) ≠ fresh (dom h)).
  { intros Heq. apply (is_fresh (dom h1)). rewrite Heq.
    apply elem_of_dom. by rewrite H1. }
  assert (Hsnew : h !! fresh (dom h1) = None).
  { destruct (h !! fresh (dom h1)) as [c|] eqn:Hl; [|done].
    exfalso. apply (is_fresh (dom h1)). apply elem_of_dom.
    rewrite Hframe by (by eexists). rewrite Hl. by eexists. }
  injection Hrun as <- <- <-. exists (fresh (dom h1)), sender.
  repeat split; try done.
  - by rewrite lookup_insert_ne, lookup_insert_eq.
  - by rewrite lookup_insert_eq.
  - intros l Hl.
    assert (l ≠ fresh (dom h)) by (intros ->; destruct Hl; congruence).
    assert (l ≠ fresh (dom h1)) by (intros ->; destruct Hl; congruence).
    rewrite !lookup_insert_ne by done. by apply Hframe.
Qed.

Lemma get_at_constructed (h : heap) (this s : loc) (id name mplt mr ord : value) :
  h !! this = Some (Object (constructed s id name mplt mr ord)) →
  get_at h this "_dataTrackSender" = VRef s
  ∧ get_at h this "maxPacketLifeTime" = mplt
  ∧ get_at h this "maxRetransmits" = mr
  ∧ get_at h this "ordered" = ord
  ∧ get_at h this "reliable" = VBool (strict_eq mplt VNull && strict_eq mr VNull).
Proof.
  intros Hthis. unfold get_at, get. rewrite Hthis.
  destruct (constructed_properties s id name mplt mr ord)
    as (_ & _ & _ & Hs & Hm & Hr & Ho & Hrel).
  by rewrite Hs, Hm, Hr, Ho, Hrel.
Qed.

(** X1.  The sender a LocalDataTrack holds is the object made by the
    constructor given in options.DataTrackSender (the default one when none
    is given) from exactly the maxPacketLifeTime, maxRetransmits and ordered
    that the track itself reports. *)
Theorem X1_sender_constructed_from_track_settings
    (options : option (gmap string value)) (h h' : heap) (this : loc)
    (tr : list event) :
  LocalDataTrack options h = (Return this, h', tr) →
  ∃ s sender,
    get_at h' this "_dataTrackSender" = VRef s
    ∧ h' !! s = Some (Object sender)
    ∧ construct (default DefaultDataTrackSender
                         (default ∅ options !! "DataTrackSender"))
                [get_at h' this "maxPacketLifeTime";
                 get_at h' this "maxRetransmits";
                 get_at h' this "ordered"]
      = Some sender.
Proof.
  intros Hnew.
  destruct (LocalDataTrack_built _ _ _ _ _ Hnew)
    as (s & sender & _ & _ & _ & _ & _ & Hc & Hsender & Hthis & _).
  destruct (get_at_constructed _ _ _ _ _ _ _ _ Hthis) as (Hg & Hm & Hr & Ho & _).
  exists s, sender. by rewrite Hg, Hm, Hr, Ho.
Qed.

(** X2.  A LocalDataTrack reports maxPacketLifeTime, maxRetransmits and
    ordered as they were given in the options, whatever the values, and
    null, null and true for those that were not given. *)
Theorem X2_settings_as_given_or_default
    (options : option (gmap string value)) (h h' : heap) (this : loc)
    (tr : list event) :
  LocalDataTrack options h = (Return this, h', tr) →
  get_at h' this "maxPacketLifeTime"
  = default VNull (default ∅ options !! "maxPacketLifeTime")
  ∧ get_at h' this "maxRetransmits"
    = default VNull (default ∅ options !! "maxRetransmits")
  ∧ get_at h' this "ordered"
    = default (VBool true) (default ∅ options !! "ordered").
Proof.
  intros Hnew.
  destruct (LocalDataTrack_built _ _ _ _ _ Hnew)
    as (s & sender & _ & _ & _ & _ & _ & _ & _ & Hthis & _).
  by destruct (get_at_constructed _ _ _ _ _ _ _ _ Hthis) as (_ & -> & -> & -> & _).
Qed.

(** X3.  Of the five properties the constructor defines, _dataTrackSender is
    not enumerable and maxPacketLifeTime, maxRetransmits, ordered and
    reliable are. *)
Theorem X3_sender_hidden_settings_enumerable
    (options : option (gmap string value)) (h h' : heap) (this : loc)
    (tr : list event) (k : string) (p : prop) :
  LocalDataTrack options h = (Return this, h', tr) →
  k ∈ own_properties →
  property_at h' this k = Some p →
  p_enumerable p = negb (bool_decide (k = "_dataTrackSender")).
Proof.
  intros Hnew Hk.
  destruct (LocalDataTrack_built _ _ _ _ _ Hnew)
    as (s & sender & _ & _ & _ & _ & _ & _ & _ & Hthis & _).
  unfold property_at. rewrite Hthis.
  match type of Hthis with
  | _ = Some (Object (constructed ?s ?i ?n ?m ?r ?o)) =>
      destruct (constructed_properties s i n m r o)
        as (_ & _ & _ & Hs & Hm & Hr & Ho & Hrel)
  end.
  unfold own_properties in Hk. rewrite !elem_of_cons, elem_of_nil in Hk.
  destruct Hk as [->|[->|[->|[->|[->|[]]]]]]; intros Hp;
    rewrite ?Hs, ?Hm, ?Hr, ?Ho, ?Hrel in Hp; by injection Hp as <-.
Qed.

(** The constructor returns once the sender's constructor has. *)
Lemma LocalDataTrack_returns (options : option (gmap string value)) (h : heap)
    (sender : object) :
  let given := default ∅ options in
  construct (default DefaultDataTrackSender (given !! "DataTrackSender"))
            [default VNull (given !! "maxPacketLifeTime");
             default VNull (given !! "maxRetransmits");
             default (VBool true) (given !! "ordered")] = Some sender →
  ∃ this h', LocalDataTrack options h = (Return this, h', []).
Proof.
  intros given Hc. rewrite LocalDataTrack_eval.
  destruct defaults_lookup as (Hm & Hr & Ho).
  rewrite !(merged_option _ _ _ Hm), !(merged_option _ _ _ Hr),
          !(merged_option _ _ _ Ho), !(merged_option _ _ _ defaults_DataTrackSender).
  fold given. rewrite Hc. by eexists _, _.
Qed.

(** X5.  The constructor does not check that only one of maxPacketLifeTime
    and maxRetransmits is set: given both, it builds the track as long as
    the sender's constructor accepts them, reports both as given and
    reliable as false. *)
Theorem X5_both_limits_are_not_rejected
    (options : option (gmap string value)) (h : heap) (a b : value)
    (sender : object) :
  let given := default ∅ options in
  given !! "maxPacketLifeTime" = Some a →
  given !! "maxRetransmits" = Some b →
  a ≠ VNull → b ≠ VNull →
  construct (default DefaultDataTrackSender (given !! "DataTrackSender"))
            [a; b; default (VBool true) (given !! "ordered")] = Some sender →
  ∃ this h',
    LocalDataTrack options h = (Return this, h', [])
    ∧ get_at h' this "maxPacketLifeTime" = a
    ∧ get_at h' this "maxRetransmits" = b
    ∧ get_at h' this "reliable" = VBool false.
Proof.
  intros given Ha Hb Hna Hnb Hc.
  destruct (LocalDataTrack_returns options h sender) as (this & h' & Hnew).
  { fold given. by rewrite Ha, Hb. }
  destruct (LocalDataTrack_built _ _ _ _ _ Hnew)
    as (s & sender' & _ & _ & _ & _ & _ & _ & _ & Hthis & _).
  fold given in Hthis. rewrite Ha, Hb in Hthis. simpl in Hthis.
  destruct (get_at_constructed _ _ _ _ _ _ _ _ Hthis) as (_ & Hm & Hr & _ & Hrel).
  exists this, h'. repeat split; try done.
  rewrite Hrel. f_equal. apply andb_false_iff. left.
  unfold strict_eq. by apply bool_decide_eq_false.
Qed.

(** ** Sending *)

Lemma constructed_owns_sender (h : heap) (this s : loc) (sender : object)
    (id name mplt mr ord : value) :
  h !! this = Some (Object (constructed s id name mplt mr ord)) →
  h !! s = Some (Object sender) → s ≠ this →
  owns_sender h this s.
Proof.
  intros Hthis Hs Hne. split; [done|]. split; [by eexists|].
  unfold frozen, property_at. rewrite Hthis.
  by destruct (constructed_properties s id name mplt mr ord)
    as (_ & _ & _ & -> & _).
Qed.

Lemma bind_traced {A B} (m : M A) (f : A → M B) h a h' tr :
  m h = (Return a, h', tr) →
  (m ≫= f) h = (result (f a h'), final (f a h'), tr ++ events (f a h')).
Proof.
  intros Hm. unfold mbind, M_bind. rewrite Hm.
  by destruct (f a h') as [[r h''] tr'].
Qed.

Lemma bind_raise {A B} (m : M A) (f : A → M B) h h' tr :
  m h = (ThrowError, h', tr) → (m ≫= f) h = (ThrowError, h', tr).
Proof. intros Hm. unfold mbind, M_bind. by rewrite Hm. Qed.

(** One step of [send_each]. *)
Lemma send_step (this s : loc) (sender : object) (data : value) (g : heap) :
  owns_sender g this s → g !! s = Some (Object sender) →
  (send this data ≫= λ _, mret tt) g
  = match DataTrackSender_send data sender with
    | NotCallable => (ThrowTypeError, g, [])
    | Raised after =>
        (ThrowError, <[s := Object after]> g, [Call s "send" [data]])
    | Returned after =>
        (Return tt, <[s := Object after]> g, [Call s "send" [data]])
    end.
Proof.
  intros Hown Hs. unfold mbind, M_bind.
  rewrite (send_run g this s sender data Hown Hs).
  by destruct (DataTrackSender_send data sender).
Qed.

Lemma send_each_run (this s : loc) (datas : list value) (g : heap) :
  owns_sender g this s →
  (∃ n, events (send_each this datas g)
        = (λ data, Call s "send" [data]) <$> take n datas)
  ∧ (result (send_each this datas g) = Return tt →
     events (send_each this datas g) = (λ data, Call s "send" [data]) <$> datas)
  ∧ ((∀ data sender, ∃ after, DataTrackSender_send data sender = Returned after) →
     result (send_each this datas g) = Return tt)
  ∧ final (send_each this datas g) !! this = g !! this.
Proof.
  revert g. induction datas as [|data datas IH]; intros g Hown.
  { repeat split; try done. by exists 0. }
  pose proof Hown as (Hne & [sender Hs] & _).
  pose proof (send_step this s sender data g Hown Hs) as Hstep.
  pose proof (perform_owns_sender g this s (Send data) Hown) as Hown'.
  simpl in Hown'. rewrite (send_run g this s sender data Hown Hs) in Hown'.
  unfold send_each in *. simpl.
  destruct (DataTrackSender_send data sender) as [|after|after] eqn:Hout.
  - rewrite (bind_throw _ _ _ _ _ Hstep).
    unfold result, events, final. simpl. repeat split; try done.
    + by exists 0.
    + intros Hall. destruct (Hall data sender) as [after Hafter]. congruence.
  - rewrite (bind_raise _ _ _ _ _ Hstep).
    unfold result, events, final. simpl. repeat split; try done.
    + by exists 1.
    + intros Hall. destruct (Hall data sender) as [after' Hafter]. congruence.
    + by rewrite lookup_insert_ne.
  - unfold final in Hown'; simpl in Hown'.
    destruct (IH _ Hown') as ([n Hev] & Hres & Hall & Hfin).
    rewrite (bind_traced _ _ _ _ _ _ Hstep).
    unfold result, events, final in *. simpl in *. repeat split.
    + exists (S n). simpl. by rewrite Hev.
    + intros Hret. by rewrite (Hres Hret).
    + done.
    + by rewrite Hfin, lookup_insert_ne.
Qed.

(** X8.  Payloads sent one after the other reach the track's sender as
    they were given and in the order they were sent, one call each, up to
    the first call that fails: the calls made are those for a prefix of
    the payloads.  If the series returns, every payload was sent, and it
    returns whenever the sender's send always returns.  The track object
    does not change. *)
Theorem X8_sends_arrive_in_order
    (options : option (gmap string value)) (h h' : heap) (this : loc)
    (tr : list event) (datas : list value) :
  LocalDataTrack options h = (Return this, h', tr) →
  ∃ s, get_at h' this "_dataTrackSender" = VRef s
       ∧ (∃ n, events (send_each this datas h')
               = (λ data, Call s "send" [data]) <$> take n datas)
       ∧ (result (send_each this datas h') = Return tt →
          events (send_each this datas h')
          = (λ data, Call s "send" [data]) <$> datas)
       ∧ ((∀ data sender, ∃ after,
             DataTrackSender_send data sender = Returned after) →
          result (send_each this datas h') = Return tt)
       ∧ final (send_each this datas h') !! this = h' !! this.
Proof.
  intros Hnew.
  destruct (LocalDataTrack_built _ _ _ _ _ Hnew)
    as (s & sender & _ & _ & _ & _ & Hne & _ & Hs & Hthis & _).
  destruct (get_at_constructed _ _ _ _ _ _ _ _ Hthis) as (Hg & _).
  exists s. split; [done|].
  apply send_each_run.
  by apply (constructed_owns_sender _ _ _ _ _ _ _ _ _ Hthis Hs).
Qed.

(** X9.  send on an object whose _dataTrackSender is not an object (it is
    missing, null or a primitive) throws a TypeError; nothing is called and
    nothing changes. *)
Theorem X9_send_without_sender_throws (h : heap) (this : loc) (o : object)
    (data : value) :
  h !! this = Some (Object o) →
  (∀ s, get "_dataTrackSender" o ≠ VRef s) →
  send this data h = (ThrowTypeError, h, []).
Proof.
  intros Hthis Hno. unfold send. as_object Hthis.
  destruct (get "_dataTrackSender" o) eqn:Hg; try done.
  by destruct (Hno l).
Qed.
End LocalDataTrack_more.

(** ** getState *)

Lemma getState_run (h : heap) (this : loc) (t : TrackSignaling) :
  h !! this = Some (Entity t) →
  LocalTrackPublicationV2.getState this h
  = (Return (fresh (dom h)),
     <[fresh (dom h) :=
         Object (<["enabled" := plain (VBool (isEnabled t))]>
                 (<["id" := plain (VStr (id t))]>
                  (<["kind" := plain (VStr (kind t))]>
                   (<["name" := plain (VStr (name t))]> ∅))))]> h,
     []).
Proof. intros Hl. unfold LocalTrackPublicationV2.getState. by as_entity Hl. Qed.

Lemma fresh_not_held (h : heap) (l : loc) : is_Some (h !! l) → l ≠ fresh (dom h).
Proof.
  intros Hl ->. apply (is_fresh (dom h)). by apply elem_of_dom.
Qed.

(** X10.  Each call of getState makes a new object: two calls in a row
    return two different objects with the same contents, and neither call
    changes the entity or any other object that existed before. *)
Theorem X10_getState_new_object_each_call (h : heap) (this : loc)
    (t : TrackSignaling) :
  h !! this = Some (Entity t) →
  ∃ (first second : loc) (o : object) (h1 h2 : heap),
    LocalTrackPublicationV2.getState this h = (Return first, h1, [])
    ∧ LocalTrackPublicationV2.getState this h1 = (Return second, h2, [])
    ∧ first ≠ second
    ∧ h2 !! first = Some (Object o)
    ∧ h2 !! second = Some (Object o)
    ∧ ∀ l, is_Some (h !! l) → h2 !! l = h !! l.
Proof.
  intros Hl.
  pose proof (getState_run _ _ _ Hl) as Hrun1.
  set (o := <["enabled" := _]> _) in Hrun1.
  set (first := fresh (dom h)) in *.
  set (h1 := <[first := Object o]> h) in *.
  assert (Hne : this ≠ first) by (apply fresh_not_held; by rewrite Hl).
  assert (Hl1 : h1 !! this = Some (Entity t)) by (unfold h1; by rewrite lookup_insert_ne).
  pose proof (getState_run _ _ _ Hl1) as Hrun2. fold o in Hrun2.
  set (second := fresh (dom h1)) in *.
  assert (Hfirst : h1 !! first = Some (Object o)) by apply lookup_insert_eq.
  assert (Hdiff : first ≠ second) by (apply fresh_not_held; by rewrite Hfirst).
  exists first, second, o, h1, (<[second := Object o]> h1).
  split; [done|]. split; [done|]. split; [done|].
  split; [by rewrite lookup_insert_ne|].
  split; [by rewrite lookup_insert_eq|].
  intros l Hheld.
  assert (l ≠ first) by by apply fresh_not_held.
  assert (Hheld1 : is_Some (h1 !! l)) by (unfold h1; by rewrite lookup_insert_ne).
  assert (l ≠ second) by by apply fresh_not_held.
  unfold h1. by rewrite !lookup_insert_ne.
Qed.

(** X11.  The object getState returns is an ordinary one: every property is
    writable, enumerable and configurable.  Assigning to its enabled
    changes that object only; the entity keeps its isEnabled, and a later
    getState reports the entity's isEnabled, not the assigned value. *)
Theorem X11_snapshot_is_writable_and_detached (h : heap) (this : loc)
    (t : TrackSignaling) (v : value) :
  h !! this = Some (Entity t) →
  ∃ (snapshot : loc) (o : object) (h1 : heap),
    LocalTrackPublicationV2.getState this h = (Return snapshot, h1, [])
    ∧ h1 !! snapshot = Some (Object o)
    ∧ (∀ k p, o !! k = Some p → p = plain (p_value p))
    ∧ result (lift (put "enabled" v) snapshot h1) = Return VUndefined
    ∧ get_at (final (lift (put "enabled" v) snapshot h1)) snapshot "enabled" = v
    ∧ final (lift (put "enabled" v) snapshot h1) !! this = Some (Entity t)
    ∧ ∃ again,
        result (LocalTrackPublicationV2.getState this
                  (final (lift (put "enabled" v) snapshot h1)))
        = Return again
        ∧ get_at (final (LocalTrackPublicationV2.getState this
                           (final (lift (put "enabled" v) snapshot h1))))
                 again "enabled"
          = VBool (isEnabled t).
Proof.
  intros Hl.
  assert (Hne : this ≠ fresh (dom h)) by (apply fresh_not_held; by rewrite Hl).
  rewrite (getState_run _ _ _ Hl).
  set (o := <["enabled" := _]> _).
  set (h1 := <[fresh (dom h) := Object o]> h).
  assert (Hsnap : h1 !! fresh (dom h) = Some (Object o)) by apply lookup_insert_eq.
  exists (fresh (dom h)), o, h1.
  split; [done|]. split; [done|]. split.
  { intros k p. unfold o.
    rewrite !lookup_insert. repeat case_decide; try done; by intros [= <-]. }
  unfold lift. as_object Hsnap.
  assert (Hput : put "enabled" v o
                 = Some (<["enabled" := Prop_ v true true true]> o)) by done.
  rewrite Hput.
  set (o' := <["enabled" := _]> o).
  assert (Hwritten : (write (fresh (dom h)) (Object o') ≫= λ _, mret VUndefined) h1
                     = (Return VUndefined, <[fresh (dom h) := Object o']> h1, [])) by done.
  rewrite Hwritten. unfold result at 1, final. simpl.
  split; [done|]. split.
  { unfold get_at, get. by rewrite lookup_insert_eq; unfold o'; rewrite lookup_insert_eq. }
  assert (Hl2 : <[fresh (dom h) := Object o']> h1 !! this = Some (Entity t)).
  { unfold h1. by rewrite !lookup_insert_ne. }
  split; [done|].
  rewrite (getState_run _ _ _ Hl2).
  eexists. split; [done|]. simpl.
  unfold get_at, get. by rewrite lookup_insert_eq.
Qed.

(** ** The helpers of the unit tests *)

(** X12.  Whatever Math.random() returns, makeKind yields "audio" or
    "video", never "data" and never undefined: the index stays inside the
    two-element array.  It is "video" exactly for a number above 0.5, and
    then makeEnabled is false. *)
Theorem X12_makeKind_audio_or_video (random : QArith_base.Q) :
  (TestHelpers.makeKind random = VStr "audio"
   ∨ TestHelpers.makeKind random = VStr "video")
  ∧ (TestHelpers.makeKind random = VStr "video"
     ↔ QArith_base.Qlt (QArith_base.Qmake 1 2) random)
  ∧ (TestHelpers.makeKind random = VStr "video" →
     TestHelpers.makeEnabled random = false).
Proof.
  unfold TestHelpers.makeKind, TestHelpers.makeEnabled, TestHelpers.gt_half,
         TestHelpers.lt_half.
  destruct (QArith_base.Qlt_le_dec (QArith_base.Qmake 1 2) random) as [Hgt|Hle];
    simpl.
  - split; [by right|]. split; [done|]. intros _.
    destruct (QArith_base.Qlt_le_dec random (QArith_base.Qmake 1 2)) as [Hlt|_];
      [|done].
    exfalso. apply (QArith_base.Qlt_irrefl random).
    by apply QArith_base.Qlt_trans with (QArith_base.Qmake 1 2).
  - split; [by left|]. split; [|done]. split; [done|].
    intros Hgt. exfalso. by apply (QArith_base.Qle_not_lt _ _ Hle).
Qed.

(** ** Instances *)

Lemma X1_witness :
  @LocalDataTrack stub options_foo ∅ = (Return 0, heap_foo, [])
  ∧ ∃ s sender,
      get_at heap_foo 0 "_dataTrackSender" = VRef s
      ∧ heap_foo !! s = Some (Object sender)
      ∧ @construct stub (VRef 1000) [VNull; VNum 3; VBool true] = Some sender.
Proof.
  assert (Hnew : @LocalDataTrack stub options_foo ∅ = (Return 0, heap_foo, []))
    by (vm_compute; reflexivity).
  split; [exact Hnew|].
  destruct (@X1_sender_constructed_from_track_settings stub options_foo ∅
              heap_foo 0 [] Hnew) as (s & sender & Hs & Hheld & Hc).
  exists s, sender. exact (conj Hs (conj Hheld Hc)).
Defined.

Lemma X2_witness :
  @LocalDataTrack stub options_foo ∅ = (Return 0, heap_foo, [])
  ∧ get_at heap_foo 0 "maxPacketLifeTime" = VNull
  ∧ get_at heap_foo 0 "maxRetransmits" = VNum 3
  ∧ get_at heap_foo 0 "ordered" = VBool true.
Proof.
  assert (Hnew : @LocalDataTrack stub options_foo ∅ = (Return 0, heap_foo, []))
    by (vm_compute; reflexivity).
  split; [exact Hnew|].
  exact (@X2_settings_as_given_or_default stub options_foo ∅ heap_foo 0 [] Hnew).
Defined.

Lemma X3_witness :
  @LocalDataTrack stub None ∅ = (Return 0, heap_default, [])
  ∧ "_dataTrackSender" ∈ own_properties
  ∧ property_at heap_default 0 "_dataTrackSender"
    = Some (Prop_ (VRef 2) false false false)
  ∧ p_enumerable (Prop_ (VRef 2) false false false) = false.
Proof.
  assert (Hnew : @LocalDataTrack stub None ∅ = (Return 0, heap_default, []))
    by (vm_compute; reflexivity).
  assert (Hk : "_dataTrackSender" ∈ own_properties).
  { apply (bool_decide_unpack _). vm_compute. exact I. }
  assert (Hp : property_at heap_default 0 "_dataTrackSender"
               = Some (Prop_ (VRef 2) false false false))
    by (vm_compute; reflexivity).
  split; [exact Hnew|]. split; [exact Hk|]. split; [exact Hp|].
  exact (@X3_sender_hidden_settings_enumerable stub None ∅ heap_default 0 []
           "_dataTrackSender" _ Hnew Hk Hp).
Defined.

Lemma X5_witness :
  default ∅ options_both !! "maxPacketLifeTime" = Some (VNum 500)
  ∧ default ∅ options_both !! "maxRetransmits" = Some (VNum 3)
  ∧ ∃ this h',
      @LocalDataTrack stub options_both ∅ = (Return this, h', [])
      ∧ get_at h' this "maxPacketLifeTime" = VNum 500
      ∧ get_at h' this "maxRetransmits" = VNum 3
      ∧ get_at h' this "reliable" = VBool false.
Proof.
  assert (Ha : default ∅ options_both !! "maxPacketLifeTime" = Some (VNum 500))
    by (vm_compute; reflexivity).
  assert (Hb : default ∅ options_both !! "maxRetransmits" = Some (VNum 3))
    by (vm_compute; reflexivity).
  split; [exact Ha|]. split; [exact Hb|].
  apply (@X5_both_limits_are_not_rejected stub options_both ∅ (VNum 500)
           (VNum 3) (<["id" := plain (VStr "abc")]> ∅) Ha Hb);
    [discriminate | discriminate | reflexivity].
Defined.

Lemma X8_witness :
  @LocalDataTrack stub None ∅ = (Return 0, heap_default, [])
  ∧ ∃ s, get_at heap_default 0 "_dataTrackSender" = VRef s
         ∧ result (@send_each stub 0 [VStr "a"; VStr "b"; VStr "a"] heap_default)
           = Return tt
         ∧ events (@send_each stub 0 [VStr "a"; VStr "b"; VStr "a"] heap_default)
           = [Call s "send" [VStr "a"]; Call s "send" [VStr "b"];
              Call s "send" [VStr "a"]].
Proof.
  assert (Hnew : @LocalDataTrack stub None ∅ = (Return 0, heap_default, []))
    by (vm_compute; reflexivity).
  split; [exact Hnew|].
  destruct (@X8_sends_arrive_in_order stub None ∅ heap_default 0 []
              [VStr "a"; VStr "b"; VStr "a"] Hnew)
    as (s & Hs & _ & Hall & Hret & _).
  assert (Hreturns : ∀ data sender, ∃ after,
            @DataTrackSender_send stub data sender = Returned after)
    by (intros data sender; exists sender; reflexivity).
  exists s. exact (conj Hs (conj (Hret Hreturns) (Hall (Hret Hreturns)))).
Defined.

Lemma X9_witness :
  ({[ 0 := Object ∅ ]} : heap) !! 0 = Some (Object ∅)
  ∧ (∀ s, get "_dataTrackSender" (∅ : object) ≠ VRef s)
  ∧ @send stub 0 (VStr "a") {[ 0 := Object ∅ ]}
    = (ThrowTypeError, {[ 0 := Object ∅ ]}, []).
Proof.
  assert (Hl : ({[ 0 := Object ∅ ]} : heap) !! 0 = Some (Object ∅))
    by reflexivity.
  assert (Hno : ∀ s, get "_dataTrackSender" (∅ : object) ≠ VRef s).
  { intros s Hs. vm_compute in Hs. discriminate Hs. }
  split; [exact Hl|]. split; [exact Hno|].
  exact (@X9_send_without_sender_throws stub _ 0 ∅ (VStr "a") Hl Hno).
Defined.

Lemma X10_witness :
  heap_publication !! 5 = Some (Entity publication_t2)
  ∧ ∃ (first second : loc) (o : object) (h1 h2 : heap),
      LocalTrackPublicationV2.getState 5 heap_publication = (Return first, h1, [])
      ∧ LocalTrackPublicationV2.getState 5 h1 = (Return second, h2, [])
      ∧ first ≠ second
      ∧ h2 !! first = Some (Object o)
      ∧ h2 !! second = Some (Object o).
Proof.
  assert (Hl : heap_publication !! 5 = Some (Entity publication_t2))
    by reflexivity.
  split; [exact Hl|].
  destruct (X10_getState_new_object_each_call heap_publication 5
              publication_t2 Hl)
    as (first & second & o & h1 & h2 & H1 & H2 & Hne & Ho1 & Ho2 & _).
  exists first, second, o, h1, h2.
  exact (conj H1 (conj H2 (conj Hne (conj Ho1 Ho2)))).
Defined.

Lemma X11_witness :
  heap_publication !! 5 = Some (Entity publication_t2)
  ∧ ∃ (snapshot : loc) (o : object) (h1 : heap),
      LocalTrackPublicationV2.getState 5 heap_publication
      = (Return snapshot, h1, [])
      ∧ get_at (final (lift (put "enabled" (VBool false)) snapshot h1))
               snapshot "enabled" = VBool false
      ∧ final (lift (put "enabled" (VBool false)) snapshot h1) !! 5
        = Some (Entity publication_t2).
Proof.
  assert (Hl : heap_publication !! 5 = Some (Entity publication_t2))
    by reflexivity.
  split; [exact Hl|].
  destruct (X11_snapshot_is_writable_and_detached heap_publication 5
              publication_t2 (VBool false) Hl)
    as (snapshot & o & h1 & Hrun & _ & _ & _ & Hget & Hkept & _).
  exists snapshot, o, h1. exact (conj Hrun (conj Hget Hkept)).
Defined.

(** A sender constructor that throws makes the LocalDataTrack constructor
    throw; the abandoned [this], still empty, and the Log are left behind. *)
Example scenario_sender_constructor_throws :
  @LocalDataTrack stub_throwing None ∅
  = (ThrowTypeError, <[1 := Object ∅]> {[ 0 := Object ∅ ]}, []).
Proof. by vm_compute. Qed.

(** A sender without a send method: send throws a TypeError and nothing is
    called. *)
Example scenario_send_not_callable :
  @send stub_no_send 0 (VStr "a") (final (@LocalDataTrack stub_no_send None ∅))
  = (ThrowTypeError, final (@LocalDataTrack stub_no_send None ∅), []).
Proof. by vm_compute. Qed.

(** A sender whose send raises on the second payload: the first two calls
    are made, the exception escapes and the third payload is never sent. *)
Example scenario_send_each_stops_at_failure :
  let run := @send_each stub_raising 0 [VStr "a"; VStr "b"; VStr "a"]
               (final (@LocalDataTrack stub_raising None ∅)) in
  result run = ThrowError
  ∧ events run = [Call 2 "send" [VStr "a"]; Call 2 "send" [VStr "b"]].
Proof. by vm_compute. Qed.
